(** * Academic-Recommender: a shallow embedding of [main.py]

    The script extracts topic and location phrases from a free-text
    query with a question-answering model, resolves topics to OpenAlex
    concepts, fetches the authors of the first five concepts per country
    and prints the first five of them, ranked by recent citation impact.

    The embedding follows the source function by function.  The external
    services the script calls (the QA model, the NLTK tokenizers and
    stop-word table, the pycountry table, the OpenAlex endpoints) are the
    fields of a [world] record; console output and HTTP requests are
    events collected by a small writer/error monad. *)

From Stdlib Require Import ZArith List String Ascii Bool Lia.
From Stdlib Require Import Permutation Sorted.
From Stdlib Require Import Floats.SpecFloat.
Import ListNotations.

Open Scope string_scope.
Open Scope list_scope.
Open Scope Z_scope.

(* ================================================================= *)
(** * The Python runtime the script relies on *)
(* ================================================================= *)

Module Py.

(** ** Floats: IEEE 754 binary64, after [SpecFloat] *)

Abbreviation float := spec_float.

Definition prec : Z := 53.
Definition emax : Z := 1024.

Definition is_nan (f : float) : bool :=
  match f with S754_nan => true | _ => false end.

(** [x < y], [x > y], [x <= y] and [x == y] on floats; every comparison
    with a NaN is false. *)
Definition float_lt (x y : float) : bool := SFltb x y.
Definition float_gt (x y : float) : bool := SFltb y x.
Definition float_le (x y : float) : bool := SFleb x y.
Definition float_eq (x y : float) : bool := SFeqb x y.

(** [-1 * x] for a float [x]: the product with [-1.0] is exact and only
    flips the sign. *)
Definition float_neg (x : float) : float := SFopp x.

(** ** Exceptions and results *)

Inductive exn : Type :=
| ZeroDivisionError
| OverflowError
| AttributeError.

Inductive result (A : Type) : Type :=
| Ok (a : A)
| Raise (e : exn).
Arguments Ok {A} a.
Arguments Raise {A} e.

(** ** True division of two ints: [a / b]

    Raises [ZeroDivisionError] when [b] is 0; otherwise the quotient
    correctly rounded to binary64 (ties to even), a signed zero on
    underflow, and [OverflowError] when the rounded quotient is beyond
    the largest float. *)
Definition int_true_div (a b : Z) : result float :=
  if b =? 0 then Raise ZeroDivisionError
  else
    let negate := xorb (a <? 0) (b <? 0) in
    if a =? 0 then Ok (S754_zero negate)
    else
      let '(mz, ez, lz) :=
        SFdiv_core_binary prec emax (Z.abs a) 0 (Z.abs b) 0 in
      match binary_round_aux prec emax negate mz ez lz with
      | S754_infinity _ => Raise OverflowError
      | q => Ok q
      end.

(** The literal [0.15]: 0x1.3333333333333p-3. *)
Definition float_0_15 : float := S754_finite false 5404319552844595 (-55).

(** ** Strings *)

Definition nl : string := String (ascii_of_nat 10) EmptyString.
Definition dquote : string := String (ascii_of_nat 34) EmptyString.

Definition ascii_lower (c : ascii) : ascii :=
  let n := nat_of_ascii c in
  if ((65 <=? n) && (n <=? 90))%nat then ascii_of_nat (n + 32) else c.

(** [s.lower()] on the ASCII letters; other bytes are kept. *)
Fixpoint lower (s : string) : string :=
  match s with
  | EmptyString => EmptyString
  | String c s' => String (ascii_lower c) (lower s')
  end.

(** [sep.join(l)] *)
Definition join (sep : string) (l : list string) : string :=
  String.concat sep l.

(** [x in s] for a set of strings *)
Definition mem (x : string) (s : list string) : bool :=
  existsb (String.eqb x) s.

(** [len(l)] *)
Definition len {A : Type} (l : list A) : Z := Z.of_nat (List.length l).

(** [l[:n]] for a non-negative literal [n] *)
Definition slice_to {A : Type} (n : nat) (l : list A) : list A := firstn n l.

(** ** [sorted(l, key=...)]

    [sorted] is a stable sort that compares keys with [<] only.  On a
    list whose keys [<] orders as a strict weak order, which is the case
    of the keys of [get_authors] when none holds a NaN, every such sort
    returns the same list ([stable_sorted_unique] below); it is written
    here as an insertion from the right, every element going in front of
    the first one that is not smaller.  On a list with a NaN among the
    keys Python's sort returns a permutation of the list too, but not
    always this one; they agree on the keys -1.25, NaN, -3.5
    of the authors Lo, NaN, Hi below, where no key is smaller than the
    one before it and both leave the list as it is.  Apart from that
    list, what is stated below about the order of the result is stated
    for keys without NaN. *)
Section Sorted.
Context {A K : Type}.
Variable key : A -> K.
Variable lt : K -> K -> bool.

Fixpoint insert (x : A) (l : list A) : list A :=
  match l with
  | [] => [x]
  | y :: l' => if lt (key y) (key x) then y :: insert x l' else x :: y :: l'
  end.

Fixpoint sorted (l : list A) : list A :=
  match l with
  | [] => []
  | x :: l' => insert x (sorted l')
  end.
End Sorted.

(** [(a1, b1) < (a2, b2)] on pairs of a float and an int: the first
    component that differs (by [==]) decides. *)
Definition tuple_lt (k1 k2 : float * Z) : bool :=
  if negb (float_eq (fst k1) (fst k2)) then float_lt (fst k1) (fst k2)
  else if negb (snd k1 =? snd k2) then snd k1 <? snd k2
  else false.

(** ** Console output and HTTP requests *)

Inductive value : Type :=
| VStr (s : string)
| VInt (n : Z)
| VFloat (f : float).

Inductive event : Type :=
| Get (url : string)            (* requests.get(url) *)
| Print (args : list value).    (* print(args...) *)

(** A computation emits events and returns or raises. *)
Definition M (A : Type) : Type := (list event * result A)%type.

Definition ret {A : Type} (a : A) : M A := ([], Ok a).
Definition raise {A : Type} (e : exn) : M A := ([], Raise e).
Definition lift {A : Type} (r : result A) : M A := ([], r).
Definition emit (ev : event) : M unit := ([ev], Ok tt).
Definition print (args : list value) : M unit := emit (Print args).

Definition bind {A B : Type} (m : M A) (f : A -> M B) : M B :=
  match m with
  | (t, Ok a) => let '(t', r) := f a in (t ++ t', r)
  | (t, Raise e) => (t, Raise e)
  end.

Definition trace {A : Type} (m : M A) : list event := fst m.
Definition outcome {A : Type} (m : M A) : result A := snd m.

(** [for x in l: s = body(s, x)] *)
Fixpoint for_each {A S : Type} (l : list A) (body : S -> A -> M S) (s : S)
  : M S :=
  match l with
  | [] => ret s
  | x :: l' => bind (body s x) (for_each l' body)
  end.

End Py.
Import Py.

Notation "x <- m ;; k" := (bind m (fun x => k))
  (at level 61, m at next level, right associativity).
Notation "m ;;; k" := (bind m (fun _ => k))
  (at level 61, right associativity).

(* ================================================================= *)
(** * Data model *)
(* ================================================================= *)

(** A number of a JSON document is read as a Python float; the parser
    behind [Response.json()] also reads the literals [NaN], [Infinity]
    and [-Infinity], so the float may be any float. *)

(** One answer of the QA pipeline. *)
Record qa_answer : Type := {
  score : float;
  start : Z;
  end_ : Z;
  answer : string
}.

(** An entry of the pycountry table. *)
Record country : Type := {
  name : string;
  alpha_2 : string
}.

(** An element of ['results'] of the concepts endpoint: the five fields
    the script reads, and the names of the fields it does not. *)
Record concept_json : Type := {
  cj_id : string;
  cj_display_name : string;
  cj_relevance_score : float;
  cj_description : string;
  cj_cited_by_count : Z;
  cj_other_keys : list string
}.

(** The concept dictionary built by [get_concepts]. *)
Record concept : Type := {
  id : string;
  c_display_name : string;
  relevance_score : float;
  description : string;
  c_cited_by_count : Z
}.

Record institution_json : Type := {
  i_display_name : string
}.

Record summary_stats_json : Type := {
  s_2yr_mean_citedness : float
}.

(** An element of ['results'] of the authors endpoint.  The key
    ['last_known_institution'] may be absent ([None]), present with the
    value [null] ([Some None]), or an object. *)
Record author_json : Type := {
  a_display_name : string;
  a_cited_by_count : Z;
  a_works_count : Z;
  a_summary_stats : summary_stats_json;
  a_last_known_institution : option (option institution_json)
}.

(** The author dictionary built by [get_authors]; the key
    ['2yr_mean_citedness'] is the field [two_year_mean_citedness]. *)
Record author : Type := {
  display_name : string;
  cited_by_count : Z;
  works_count : Z;
  citing_score : float;
  two_year_mean_citedness : float;
  association : string
}.

(** Everything outside the script: the QA pipeline
    ([qa_model question context]), the NLTK tokenizers and English
    stop-word table, the pycountry lookups, and what the two OpenAlex
    endpoints answer under ['results'] for a URL. *)
Record world : Type := {
  qa_model : string -> string -> qa_answer;
  sent_tokenize : string -> list string;
  word_tokenize : string -> list string;
  stopwords_english : list string;
  countries_get_name : string -> option country;
  countries_get_alpha_2 : string -> option country;
  openalex_concepts : string -> list concept_json;
  openalex_authors : string -> list author_json
}.

(* ================================================================= *)
(** * The script *)
(* ================================================================= *)

Section Script.

Variable W : world.

(** ** [remove_stop_words] *)

Definition stop_words : list string :=
  stopwords_english W ++ ["."; ","; ";"].

(** The body of [for word in word_tokens], on the pair
    [(all_topics, current_topic)]. *)
Definition word_step (st : list (list string) * list string) (word : string)
  : list (list string) * list string :=
  let '(all_topics, current_topic) := st in
  if negb (mem (lower word) stop_words) then
    (all_topics, current_topic ++ [word])
  else if len current_topic >? 0 then
    (all_topics ++ [current_topic], [])
  else
    (all_topics, current_topic).

(** The body of [for topic in topics]. *)
Definition topic_step (all_topics : list (list string)) (topic : string)
  : list (list string) :=
  let word_tokens := word_tokenize W topic in
  let '(all_topics, current_topic) :=
    fold_left word_step word_tokens (all_topics, []) in
  if len current_topic >? 0 then all_topics ++ [current_topic]
  else all_topics.

Definition remove_stop_words (topics : list string) : list string :=
  let all_topics := fold_left topic_step topics [] in
  map (join " ") all_topics.

(** ** [anwser_question] and [extract_information] *)

Definition answers (context question : string) : list qa_answer :=
  let split_context := sent_tokenize W context in
  map (fun c => qa_model W question c) split_context.

Definition infos (context question : string) : list string :=
  map answer
    (filter (fun a => float_gt (score a) float_0_15)
       (answers context question)).

Definition anwser_question (context question : string) : list string :=
  let filtered_infos := remove_stop_words (infos context question) in
  filtered_infos.

Definition extract_information (context : string)
  : list string * list string :=
  let topics := anwser_question context "What am I interested in?" in
  let locations :=
    anwser_question context "Which country am I interested in?" in
  (topics, locations).

(** ** [get_concepts] *)

Definition concept_of_result (result : concept_json) : concept :=
  {| id := cj_id result;
     c_display_name := cj_display_name result;
     relevance_score := cj_relevance_score result;
     description := cj_description result;
     c_cited_by_count := cj_cited_by_count result |}.

Definition concepts_url (topic : string) : string :=
  ("https://api.openalex.org/concepts?search=" ++ topic)%string.

Definition get_concepts (topic : string) : M (list concept) :=
  emit (Get (concepts_url topic)) ;;;
  let results := openalex_concepts W (concepts_url topic) in
  print [VStr "Number of concepts found: "; VInt (len results)] ;;;
  ret (map concept_of_result results).

(** ** [get_authors]

    The [def] line of the source lacks the closing parenthesis of the
    parameter list and annotates [country_code] with a [Union] that is
    not imported; the function is taken with the two parameters
    [concepts] and [country_code] it names. *)

Definition authors_filter (c : concept) (country_code : option string)
  : string :=
  let filter := ("filter=concept.id:" ++ id c)%string in
  match country_code with
  | Some cc =>
      (filter ++ ",last_known_institution.country_code:" ++ cc)%string
  | None => filter
  end.

Definition authors_url (c : concept) (country_code : option string)
  : string :=
  ("https://api.openalex.org/authors?" ++ authors_filter c country_code
     ++ "&per-page=100&sort=cited_by_count:desc")%string.

(** The dictionary [author] built from [a] in the body of
    [for a in authors]. *)
Definition build_author (a : author_json) : result author :=
  match int_true_div (a_cited_by_count a) (a_works_count a) with
  | Raise e => Raise e
  | Ok cs =>
      let lki :=
        match a_last_known_institution a with
        | Some v => v
        | None => None
        end in
      Ok {| display_name := a_display_name a;
            cited_by_count := a_cited_by_count a;
            works_count := a_works_count a;
            citing_score := cs;
            two_year_mean_citedness :=
              s_2yr_mean_citedness (a_summary_stats a);
            association :=
              match lki with
              | Some i => i_display_name i
              | None => "No institution"
              end |}
  end.

(** The key of the final sort:
    [(-1 * x["2yr_mean_citedness"], -1 * x["cited_by_count"])]. *)
Definition sort_key (x : author) : float * Z :=
  (float_neg (two_year_mean_citedness x), -1 * cited_by_count x).

(** The body of [for a in authors]. *)
Definition author_step (all_authors : list author) (a : author_json)
  : M (list author) :=
  author <- lift (build_author a) ;;
  ret (all_authors ++ [author]).

(** The body of [for concept in concepts]. *)
Definition concept_step (country_code : option string)
    (all_authors : list author) (c : concept) : M (list author) :=
  emit (Get (authors_url c country_code)) ;;;
  let authors := openalex_authors W (authors_url c country_code) in
  for_each authors author_step all_authors.

Definition get_authors (concepts : list concept)
    (country_code : option string) : M (list author) :=
  all_authors <- for_each concepts (concept_step country_code) [] ;;
  ret (sorted sort_key tuple_lt all_authors).

(** ** [convert_location_to_alpha2] *)

Definition convert_location_to_alpha2 (countries : list string)
  : list (option string) :=
  let codes := map (countries_get_name W) countries in
  let filtered_codes :=
    flat_map (fun code =>
                match code with
                | Some c => [alpha_2 c]
                | None => []
                end) codes in
  if len filtered_codes >? 0 then map Some filtered_codes else [None].

(** ** [print_authors] *)

Definition print_author (a : author) : M unit :=
  print [VStr (nl ++ display_name a ++ " - " ++ association a)] ;;;
  print [VStr "   • Avg number of citations last 2yrs: ";
         VFloat (two_year_mean_citedness a)] ;;;
  print [VStr "   • Number of works: "; VInt (works_count a)] ;;;
  print [VStr "   • Number of citations: "; VInt (cited_by_count a)] ;;;
  print [VStr "   • Citing score: "; VFloat (citing_score a)].

Definition print_authors (authors : list author)
    (country_code : option string) : M unit :=
  match country_code with
  | Some cc =>
      match countries_get_alpha_2 W cc with
      | Some c => print [VStr (nl ++ "In " ++ name c ++ ":")]
      | None => raise AttributeError
      end
  | None => ret tt
  end ;;;
  for_each authors (fun _ a => print_author a) tt.

(** ** The driver *)

(** The body of [for country_code in country_codes]. *)
Definition country_step (concepts : list concept)
    (country_code : option string) : M unit :=
  authors <- get_authors (slice_to 5 concepts) country_code ;;
  print_authors (slice_to 5 authors) country_code ;;;
  print [VStr (nl ++ nl)].

(** The body of [for topic in topics]. *)
Definition topic_step_driver (locations : list string) (topic : string)
  : M unit :=
  concepts <- get_concepts topic ;;
  let country_codes := convert_location_to_alpha2 locations in
  print [VStr ("Results for the topic: " ++ dquote ++ topic ++ dquote)] ;;;
  for_each country_codes (fun _ cc => country_step concepts cc) tt.

Definition query : string :=
  "I'm interested in Computer Science and Botanic in France, Germany and Italy".

Definition main : M unit :=
  let '(topics, locations) := extract_information query in
  print [VStr "The inferred topics are:"; VStr (join ", " topics)] ;;;
  print [VStr "The inferred locations are:"; VStr (join ", " locations)] ;;;
  if negb (len topics =? 0) then
    for_each topics (fun _ topic => topic_step_driver locations topic) tt
  else
    print [VStr "No topics found!"].

End Script.

(* ================================================================= *)
(** * A small concrete world, for running the script *)
(* ================================================================= *)

Module Sample.

Definition flush (cur : string) : list string :=
  match cur with EmptyString => [] | _ => [cur] end.

(** A whitespace tokenizer that also splits off [.], [,] and [;]. *)
Fixpoint tokenize_from (s cur : string) : list string :=
  match s with
  | EmptyString => flush cur
  | String c s' =>
      if Ascii.eqb c " " then flush cur ++ tokenize_from s' EmptyString
      else if Ascii.eqb c "." || Ascii.eqb c "," || Ascii.eqb c ";" then
        flush cur ++ String c EmptyString :: tokenize_from s' EmptyString
      else tokenize_from s' (cur ++ String c EmptyString)
  end.

Definition tokenize (s : string) : list string := tokenize_from s EmptyString.

(** A few entries of the English stop-word table. *)
Definition stopwords : list string :=
  ["i"; "me"; "my"; "am"; "is"; "are"; "the"; "a"; "an"; "and"; "or";
   "in"; "of"; "to"].

Definition quotient (a b : Z) : float :=
  match int_true_div a b with Ok f => f | Raise _ => S754_zero false end.

Definition f_0_9 : float := Eval vm_compute in quotient 9 10.
Definition f_0_1 : float := Eval vm_compute in quotient 1 10.

Definition f_3_5 : float := Eval vm_compute in quotient 7 2.
Definition f_1_25 : float := Eval vm_compute in quotient 5 4.

Definition f_0 : float := S754_zero false.

Definition two_sentences : string := "I like botany. I live in a house.".

Definition sentences (s : string) : list string :=
  if String.eqb s two_sentences then ["I like botany."; "I live in a house."]
  else [s].

Definition qa (question context : string) : qa_answer :=
  if String.eqb context "I live in a house." then
    {| score := f_0_1; start := 12; end_ := 17; answer := "house" |}
  else if String.eqb context "I like botany." then
    {| score := f_0_9; start := 7; end_ := 13; answer := "botany" |}
  else if String.eqb question "What am I interested in?" then
    {| score := f_0_9; start := 18; end_ := 46;
       answer := "Computer Science and Botanic" |}
  else
    {| score := f_0_9; start := 50; end_ := 75;
       answer := "France, Germany and Italy" |}.

Definition table : list country :=
  [ {| name := "Germany"; alpha_2 := "DE" |};
    {| name := "Italy"; alpha_2 := "IT" |};
    {| name := "France"; alpha_2 := "FR" |} ].

Definition by_name (n : string) : option country :=
  find (fun c => String.eqb (lower (name c)) (lower n)) table.

Definition by_alpha_2 (a : string) : option country :=
  find (fun c => String.eqb (lower (alpha_2 c)) (lower a)) table.

Definition concept_result (i : string) : concept_json :=
  {| cj_id := i; cj_display_name := i; cj_relevance_score := f_3_5;
     cj_description := "a concept"; cj_cited_by_count := 10;
     cj_other_keys := ["level"; "works_count"] |}.

Definition concepts_of (url : string) : list concept_json :=
  map concept_result ["C1"; "C2"; "C3"; "C4"; "C5"; "C6"].

Definition ada : author_json :=
  {| a_display_name := "Ada"; a_cited_by_count := 10; a_works_count := 4;
     a_summary_stats := {| s_2yr_mean_citedness := f_3_5 |};
     a_last_known_institution :=
       Some (Some {| i_display_name := "Analytical Society" |}) |}.

Definition bob : author_json :=
  {| a_display_name := "Bob"; a_cited_by_count := 30; a_works_count := 3;
     a_summary_stats := {| s_2yr_mean_citedness := f_1_25 |};
     a_last_known_institution := Some None |}.

Definition cyd : author_json :=
  {| a_display_name := "Cyd"; a_cited_by_count := 50; a_works_count := 7;
     a_summary_stats := {| s_2yr_mean_citedness := f_3_5 |};
     a_last_known_institution := None |}.

(** An author without works. *)
Definition dee : author_json :=
  {| a_display_name := "Dee"; a_cited_by_count := 0; a_works_count := 0;
     a_summary_stats := {| s_2yr_mean_citedness := f_0 |};
     a_last_known_institution := None |}.

(** An author whose citation count is beyond the floats. *)
Definition eve : author_json :=
  {| a_display_name := "Eve"; a_cited_by_count := 2 ^ 1024;
     a_works_count := 1;
     a_summary_stats := {| s_2yr_mean_citedness := f_0 |};
     a_last_known_institution := None |}.

Definition mk_concept (i : string) : concept :=
  {| id := i; c_display_name := i; relevance_score := f_3_5;
     description := "a concept"; c_cited_by_count := 10 |}.

Definition starts_with (p s : string) : bool := String.prefix p s.

Definition authors_of (url : string) : list author_json :=
  if starts_with "https://api.openalex.org/authors?filter=concept.id:C1" url
  then [bob; ada]
  else if
    starts_with "https://api.openalex.org/authors?filter=concept.id:C2" url
  then [cyd; ada]
  else if
    starts_with "https://api.openalex.org/authors?filter=concept.id:Z" url
  then [ada; dee]
  else if
    starts_with "https://api.openalex.org/authors?filter=concept.id:H" url
  then [eve]
  else [].

Definition w : world :=
  {| qa_model := qa;
     sent_tokenize := sentences;
     word_tokenize := tokenize;
     stopwords_english := stopwords;
     countries_get_name := by_name;
     countries_get_alpha_2 := by_alpha_2;
     openalex_concepts := concepts_of;
     openalex_authors := authors_of |}.

(** The same world, but every concept is answered with an author
    without works. *)
Definition w_zero : world :=
  {| qa_model := qa;
     sent_tokenize := sentences;
     word_tokenize := tokenize;
     stopwords_english := stopwords;
     countries_get_name := by_name;
     countries_get_alpha_2 := by_alpha_2;
     openalex_concepts := concepts_of;
     openalex_authors := fun _ => [ada; dee] |}.

(** Three authors, the second with the citedness [NaN]. *)
Definition lo : author_json :=
  {| a_display_name := "Lo"; a_cited_by_count := 10; a_works_count := 4;
     a_summary_stats := {| s_2yr_mean_citedness := f_1_25 |};
     a_last_known_institution := None |}.

Definition nan : author_json :=
  {| a_display_name := "NaN"; a_cited_by_count := 10; a_works_count := 4;
     a_summary_stats := {| s_2yr_mean_citedness := S754_nan |};
     a_last_known_institution := None |}.

Definition hi : author_json :=
  {| a_display_name := "Hi"; a_cited_by_count := 10; a_works_count := 4;
     a_summary_stats := {| s_2yr_mean_citedness := f_3_5 |};
     a_last_known_institution := None |}.

(** The same world, but every concept is answered with these three. *)
Definition w_nan : world :=
  {| qa_model := qa;
     sent_tokenize := sentences;
     word_tokenize := tokenize;
     stopwords_english := stopwords;
     countries_get_name := by_name;
     countries_get_alpha_2 := by_alpha_2;
     openalex_concepts := concepts_of;
     openalex_authors := fun _ => [lo; nan; hi] |}.

(** The same world, but the QA model is never confident. *)
Definition w_quiet : world :=
  {| qa_model := fun _ _ =>
       {| score := f_0_1; start := 0; end_ := 0; answer := "nothing" |};
     sent_tokenize := sentences;
     word_tokenize := tokenize;
     stopwords_english := stopwords;
     countries_get_name := by_name;
     countries_get_alpha_2 := by_alpha_2;
     openalex_concepts := concepts_of;
     openalex_authors := authors_of |}.

End Sample.

(* ================================================================= *)
(** * Definitions used by the statements *)
(* ================================================================= *)

(** ** The order of the floats, through an integer rank

    [rank] sends the floats that are not NaN to triples of integers whose
    lexicographic order is the order [SFcompare] computes. *)
Definition rank (f : float) : Z * Z * Z :=
  match f with
  | S754_infinity true => (-2, 0, 0)
  | S754_finite true m e => (-1, - e, - Z.pos m)
  | S754_zero _ => (0, 0, 0)
  | S754_finite false m e => (1, e, Z.pos m)
  | S754_infinity false => (2, 0, 0)
  | S754_nan => (3, 0, 0)
  end.

Definition lex3_lt (a b : Z * Z * Z) : Prop :=
  let '(a1, a2, a3) := a in
  let '(b1, b2, b3) := b in
  a1 < b1 \/ (a1 = b1 /\ (a2 < b2 \/ (a2 = b2 /\ a3 < b3))).

(** Two authors the sort key does not tell apart: the same
    [2yr_mean_citedness] (by [==]) and the same [cited_by_count]. *)
Definition same_key (x y : author) : bool :=
  float_eq (fst (sort_key x)) (fst (sort_key y))
  && (snd (sort_key x) =? snd (sort_key y)).

(** The ranking the sort is meant to produce, on two neighbours [x]
    (first) and [y] (second): citedness does not increase, and on equal
    citedness the citation count does not increase. *)
Definition ranked (x y : author) : Prop :=
  float_le (two_year_mean_citedness y) (two_year_mean_citedness x) = true
  /\ (float_eq (two_year_mean_citedness x) (two_year_mean_citedness y) = true
      -> cited_by_count y <= cited_by_count x).

(** Neighbours in the result of [sorted]: the second is never smaller
    than the first. *)
Definition not_after {A K : Type} (key : A -> K) (lt : K -> K -> bool)
    (x y : A) : Prop :=
  lt (key y) (key x) = false.

(** ** Lists of results *)

Fixpoint map_result {A B : Type} (f : A -> result B) (l : list A)
  : result (list B) :=
  match l with
  | [] => Ok []
  | x :: l' =>
      match f x with
      | Raise e => Raise e
      | Ok y =>
          match map_result f l' with
          | Raise e => Raise e
          | Ok ys => Ok (y :: ys)
          end
      end
  end.

(** What the authors endpoint answers for the concepts, concept after
    concept. *)
Definition fetched (W : world) (concepts : list concept)
    (country_code : option string) : list author_json :=
  flat_map (fun c => openalex_authors W (authors_url c country_code)) concepts.

(** ** Events of a trace *)

Definition is_get (ev : event) : bool :=
  match ev with Get _ => true | Print _ => false end.

Definition is_print (ev : event) : bool :=
  match ev with Get _ => false | Print _ => true end.

(** The URLs requested, in order. *)
Definition requests (t : list event) : list string :=
  flat_map (fun ev => match ev with Get u => [u] | Print _ => [] end) t.

(** What [print_authors] prints first: the line of the country, when
    there is a country code. *)
Definition header_lines (W : world) (country_code : option string)
  : list event :=
  match country_code with
  | Some cc =>
      match countries_get_alpha_2 W cc with
      | Some c => [Print [VStr (nl ++ "In " ++ name c ++ ":")]]
      | None => []
      end
  | None => []
  end.

(** The five lines [print_authors] prints for one author. *)
Definition author_lines (a : author) : list event :=
  [ Print [VStr (nl ++ display_name a ++ " - " ++ association a)];
    Print [VStr "   • Avg number of citations last 2yrs: ";
           VFloat (two_year_mean_citedness a)];
    Print [VStr "   • Number of works: "; VInt (works_count a)];
    Print [VStr "   • Number of citations: "; VInt (cited_by_count a)];
    Print [VStr "   • Citing score: "; VFloat (citing_score a)] ].

(** ** Runs of words, as the specification describes them *)

Section Runs.
Context {A : Type}.
Variable sep : A -> bool.

(** [runs_of l rs]: [rs] are the maximal runs of non-separators of [l],
    in order.  A run is not empty, holds no separator, and is followed
    by a separator or by the end of [l]; separators belong to no run. *)
Inductive runs_of : list A -> list (list A) -> Prop :=
| runs_nil : runs_of [] []
| runs_sep : forall x l rs,
    sep x = true -> runs_of l rs -> runs_of (x :: l) rs
| runs_run : forall r l rs,
    r <> [] ->
    Forall (fun x => sep x = false) r ->
    (l = [] \/ exists x l', l = x :: l' /\ sep x = true) ->
    runs_of l rs ->
    runs_of (r ++ l) (r :: rs).
End Runs.

(** The runs computed from left to right; [cur] is the run being read. *)
Fixpoint runs_from {A : Type} (sep : A -> bool) (l cur : list A)
  : list (list A) :=
  match l with
  | [] => match cur with [] => [] | _ => [cur] end
  | x :: l' =>
      if sep x then
        match cur with [] => [] | _ => [cur] end ++ runs_from sep l' []
      else runs_from sep l' (cur ++ [x])
  end.

(** A word the script treats as a separator: its lower-case form is in
    the stop-word table or is one of [.], [,], [;]. *)
Definition is_stop (W : world) (word : string) : bool :=
  mem (lower word) (stop_words W).

(** ** Resolution of country names, as the specification describes it *)

(** The list [filtered_codes] of [convert_location_to_alpha2]. *)
Definition filtered_codes_of (W : world) (countries : list string)
  : list string :=
  flat_map (fun code => match code with
                        | Some c => [alpha_2 c]
                        | None => []
                        end)
    (map (countries_get_name W) countries).

(** [resolved W names codes]: [codes] are the alpha-2 codes of the names
    the table resolves, in the order of [names]; the other names are
    dropped. *)
Inductive resolved (W : world) : list string -> list string -> Prop :=
| resolved_nil : resolved W [] []
| resolved_drop : forall n names codes,
    countries_get_name W n = None ->
    resolved W names codes -> resolved W (n :: names) codes
| resolved_keep : forall n c names codes,
    countries_get_name W n = Some c ->
    resolved W names codes -> resolved W (n :: names) (alpha_2 c :: codes).

(** ** Further definitions used by the statements *)

(** The list [all_topics] of [remove_stop_words] before the final join:
    the runs of words kept, as lists of tokens. *)
Definition kept_runs (W : world) (phrases : list string)
  : list (list string) :=
  fold_left (topic_step W) phrases [].

(** A float that is a zero or a finite number: neither a NaN nor an
    infinity. *)
Definition is_finite (f : float) : bool :=
  match f with
  | S754_zero _ | S754_finite _ _ _ => true
  | _ => false
  end.

(** The concepts [get_concepts] returns for a topic. *)
Definition concepts_of_topic (W : world) (topic : string) : list concept :=
  map concept_of_result (openalex_concepts W (concepts_url topic)).

(** The URLs a run without exception requests: for every topic the
    concept search, then for every country code the authors of the first
    five concepts. *)
Definition run_urls (W : world) (topics : list string)
    (country_codes : list (option string)) : list string :=
  flat_map (fun topic =>
              concepts_url topic
              :: flat_map (fun cc =>
                             map (fun c => authors_url c cc)
                               (firstn 5 (concepts_of_topic W topic)))
                   country_codes)
    topics.

(* ================================================================= *)
(** * The order of floats and of sort keys *)
(* ================================================================= *)

Section FloatOrder.

Lemma SFcompare_rank (x y : float) :
  is_nan x = false -> is_nan y = false ->
  match SFcompare x y with
  | Some Lt => lex3_lt (rank x) (rank y)
  | Some Eq => rank x = rank y
  | Some Gt => lex3_lt (rank y) (rank x)
  | None => False
  end.
Proof.
  destruct x as [[|]|[|]| |[|] m1 e1], y as [[|]|[|]| |[|] m2 e2];
    cbn; intros; try discriminate; try reflexivity; try lia;
    change (Pos.compare_cont Eq m1 m2) with (Pos.compare m1 m2);
    destruct (Z.compare_spec e1 e2); try lia;
    destruct (Pos.compare_spec m1 m2); cbn; subst; try reflexivity; lia.
Qed.

Lemma rank_opp (x : float) :
  is_nan x = false ->
  rank (SFopp x)
  = (- fst (fst (rank x)), - snd (fst (rank x)), - snd (rank x)).
Proof.
  destruct x as [[|]|[|]| |[|] m e]; cbn; intros; try discriminate;
    repeat f_equal; lia.
Qed.

Lemma is_nan_opp (x : float) : is_nan (SFopp x) = is_nan x.
Proof. destruct x; reflexivity. Qed.

(** [SFcompare] on the negations is [SFcompare] with the sides swapped. *)
Lemma SFcompare_opp (x y : float) :
  SFcompare (SFopp x) (SFopp y) = SFcompare y x.
Proof.
  destruct x as [[|]|[|]| |[|] m1 e1], y as [[|]|[|]| |[|] m2 e2];
    cbn; try reflexivity;
    rewrite (Z.compare_antisym e1 e2);
    change (Pos.compare_cont Eq m2 m1) with (Pos.compare m2 m1);
    change (Pos.compare_cont Eq m1 m2) with (Pos.compare m1 m2);
    rewrite (Pos.compare_antisym m1 m2);
    destruct (e1 ?= e2); cbn; try reflexivity;
    destruct (m1 ?= m2)%positive; reflexivity.
Qed.

Lemma SFcompare_antisym (x y : float) :
  SFcompare y x = option_map CompOpp (SFcompare x y).
Proof.
  destruct x as [[|]|[|]| |[|] m1 e1], y as [[|]|[|]| |[|] m2 e2];
    cbn; try reflexivity;
    rewrite (Z.compare_antisym e1 e2);
    change (Pos.compare_cont Eq m2 m1) with (Pos.compare m2 m1);
    change (Pos.compare_cont Eq m1 m2) with (Pos.compare m1 m2);
    rewrite (Pos.compare_antisym m1 m2);
    destruct (e1 ?= e2); cbn; try reflexivity;
    destruct (m1 ?= m2)%positive; reflexivity.
Qed.

End FloatOrder.

Section KeyOrder.

Lemma SFcompare_defined (x y : float) :
  is_nan x = false -> is_nan y = false -> SFcompare x y <> None.
Proof.
  intros Nx Ny. pose proof (SFcompare_rank x y Nx Ny) as H.
  destruct (SFcompare x y); [discriminate | contradiction].
Qed.

(** A comparison that answers has no NaN on either side. *)
Lemma SFcompare_some_not_nan (x y : float) (c : comparison) :
  SFcompare x y = Some c -> is_nan x = false /\ is_nan y = false.
Proof. destruct x, y; cbn; try discriminate; now split. Qed.

Lemma SFeqb_not_nan (x y : float) :
  SFeqb x y = true -> is_nan x = false /\ is_nan y = false.
Proof.
  unfold SFeqb. destruct (SFcompare x y) as [c|] eqn:E; [|discriminate].
  intros _. eapply SFcompare_some_not_nan, E.
Qed.

Lemma SFleb_not_nan (x y : float) :
  SFleb x y = true -> is_nan x = false /\ is_nan y = false.
Proof.
  unfold SFleb. destruct (SFcompare x y) as [c|] eqn:E; [|discriminate].
  intros _. eapply SFcompare_some_not_nan, E.
Qed.

Lemma SFeqb_rank (x y : float) :
  is_nan x = false -> is_nan y = false ->
  (SFeqb x y = true <-> rank x = rank y).
Proof.
  intros Nx Ny. pose proof (SFcompare_rank x y Nx Ny) as H.
  unfold SFeqb. destruct (SFcompare x y) as [[| |]|]; try contradiction;
    (split; [intros E; try discriminate; assumption | intros E]);
    try reflexivity; rewrite E in H;
    destruct (rank y) as [[a b] c]; cbn in H; lia.
Qed.

(** The key comparison, spelled out on the two authors. *)
Lemma tuple_lt_sort_key (x y : author) :
  tuple_lt (sort_key x) (sort_key y)
  = match SFcompare (two_year_mean_citedness y) (two_year_mean_citedness x)
    with
    | Some Lt => true
    | Some Eq => cited_by_count y <? cited_by_count x
    | _ => false
    end.
Proof.
  unfold tuple_lt, sort_key, float_eq, float_lt, float_neg, SFeqb, SFltb.
  cbn [fst snd]. rewrite SFcompare_opp.
  destruct (SFcompare _ _) as [[| |]|]; cbn [negb]; try reflexivity.
  destruct (Z.eqb_spec (-1 * cited_by_count x) (-1 * cited_by_count y));
    cbn [negb].
  - symmetry. apply Z.ltb_ge. lia.
  - destruct (Z.ltb_spec (-1 * cited_by_count x) (-1 * cited_by_count y));
      symmetry; [apply Z.ltb_lt | apply Z.ltb_ge]; lia.
Qed.

Lemma tuple_lt_asym (x y : author) :
  tuple_lt (sort_key x) (sort_key y) = true ->
  tuple_lt (sort_key y) (sort_key x) = false.
Proof.
  rewrite !tuple_lt_sort_key.
  rewrite (SFcompare_antisym (two_year_mean_citedness y)
             (two_year_mean_citedness x)).
  destruct (SFcompare _ _) as [[| |]|]; cbn; try discriminate; auto.
  intros H. apply Z.ltb_lt in H. apply Z.ltb_ge. lia.
Qed.

(** An author that is not ranked after its neighbour by the key is
    ranked before it in the sense of [ranked], when neither citedness is
    a NaN. *)
Lemma not_tuple_lt_ranked (x y : author) :
  is_nan (two_year_mean_citedness x) = false ->
  is_nan (two_year_mean_citedness y) = false ->
  tuple_lt (sort_key y) (sort_key x) = false -> ranked x y.
Proof.
  intros Nx Ny.
  rewrite tuple_lt_sort_key. unfold ranked, float_le, float_eq, SFleb, SFeqb.
  rewrite (SFcompare_antisym (two_year_mean_citedness x)
             (two_year_mean_citedness y)).
  pose proof (SFcompare_defined (two_year_mean_citedness x)
                (two_year_mean_citedness y) Nx Ny) as D.
  destruct (SFcompare _ _) as [[| |]|]; cbn; try discriminate;
    try contradiction; intros H; split; try reflexivity; try discriminate.
  intros _. apply Z.ltb_ge in H. exact H.
Qed.

Lemma SFeqb_opp (x y : float) : SFeqb (SFopp x) (SFopp y) = SFeqb y x.
Proof. unfold SFeqb. now rewrite SFcompare_opp. Qed.

Lemma same_key_not_lt (a x y : author) :
  same_key a x = true -> same_key a y = true ->
  tuple_lt (sort_key y) (sort_key x) = false.
Proof.
  intros Hx Hy.
  unfold same_key, sort_key, float_eq, float_neg in Hx, Hy.
  cbn [fst snd] in Hx, Hy. rewrite SFeqb_opp in Hx, Hy.
  apply andb_prop in Hx as [Fx Zx]. apply andb_prop in Hy as [Fy Zy].
  apply Z.eqb_eq in Zx. apply Z.eqb_eq in Zy.
  destruct (SFeqb_not_nan _ _ Fx) as [Nx Na].
  destruct (SFeqb_not_nan _ _ Fy) as [Ny _].
  apply (SFeqb_rank _ _ Nx Na) in Fx. apply (SFeqb_rank _ _ Ny Na) in Fy.
  rewrite tuple_lt_sort_key.
  assert (E : SFeqb (two_year_mean_citedness x) (two_year_mean_citedness y)
              = true) by (apply SFeqb_rank; congruence).
  unfold SFeqb in E.
  destruct (SFcompare _ _) as [[| |]|]; try discriminate.
  apply Z.ltb_ge. lia.
Qed.

Lemma ranked_trans (x y z : author) : ranked x y -> ranked y z -> ranked x z.
Proof.
  unfold ranked, float_le, float_eq.
  set (cx := two_year_mean_citedness x).
  set (cy := two_year_mean_citedness y).
  set (cz := two_year_mean_citedness z).
  intros [A1 A2] [B1 B2].
  destruct (SFleb_not_nan _ _ A1) as [Ny Nx].
  destruct (SFleb_not_nan _ _ B1) as [Nz _].
  pose proof (SFcompare_rank cy cx Ny Nx) as Hyx.
  pose proof (SFcompare_rank cz cy Nz Ny) as Hzy.
  pose proof (SFcompare_rank cz cx Nz Nx) as Hzx.
  pose proof (SFcompare_rank cx cy Nx Ny) as Hxy.
  pose proof (SFcompare_rank cx cz Nx Nz) as Hxz.
  pose proof (SFcompare_rank cy cz Ny Nz) as Hyz.
  clear Nx Ny Nz. revert A1 A2 B1 B2. unfold SFleb, SFeqb.
  destruct (rank cx) as [[x1 x2] x3], (rank cy) as [[y1 y2] y3],
    (rank cz) as [[z1 z2] z3].
  destruct (SFcompare cy cx) as [[| |]|], (SFcompare cz cy) as [[| |]|],
    (SFcompare cz cx) as [[| |]|], (SFcompare cx cy) as [[| |]|],
    (SFcompare cx cz) as [[| |]|], (SFcompare cy cz) as [[| |]|];
    cbn in *; intros A1 A2 B1 B2; try discriminate; try contradiction;
    try (exfalso; try injection Hyx as ?; try injection Hzy as ?;
         try injection Hzx as ?; try injection Hxy as ?;
         try injection Hxz as ?; try injection Hyz as ?; lia);
    (split; [reflexivity | intros C; try discriminate]);
    specialize (A2 eq_refl); specialize (B2 eq_refl); lia.
Qed.

Lemma same_key_refl (x : author) :
  is_nan (two_year_mean_citedness x) = false -> same_key x x = true.
Proof.
  intros Nx. unfold same_key, sort_key, float_eq, float_neg. cbn [fst snd].
  apply andb_true_intro. split.
  - rewrite SFeqb_opp. now apply SFeqb_rank.
  - apply Z.eqb_refl.
Qed.

Lemma ranked_same_key (x y : author) :
  ranked x y -> ranked y x -> same_key x y = true.
Proof.
  unfold ranked, same_key, sort_key, float_le, float_eq, float_neg.
  cbn [fst snd]. rewrite SFeqb_opp. unfold SFleb, SFeqb.
  rewrite (SFcompare_antisym (two_year_mean_citedness y)
             (two_year_mean_citedness x)).
  destruct (SFcompare _ _) as [[| |]|]; cbn [option_map CompOpp];
    intros [A1 A2] [B1 B2]; try discriminate.
  specialize (A2 eq_refl). specialize (B2 eq_refl).
  apply Z.eqb_eq. lia.
Qed.

(** A NaN is ranked neither before nor after anything. *)
Lemma ranked_not_nan (x y : author) :
  ranked x y ->
  is_nan (two_year_mean_citedness x) = false
  /\ is_nan (two_year_mean_citedness y) = false.
Proof.
  intros [H _]. apply SFleb_not_nan in H. tauto.
Qed.

End KeyOrder.

(* ================================================================= *)
(** * [sorted]: permutation, order and stability *)
(* ================================================================= *)

Section SortedFacts.
Context {A K : Type}.
Variable key : A -> K.
Variable lt : K -> K -> bool.

Lemma insert_perm (x : A) (l : list A) :
  Permutation (insert key lt x l) (x :: l).
Proof.
  induction l as [|y l IH]; cbn; [reflexivity|].
  destruct (lt (key y) (key x)); [|reflexivity].
  rewrite IH. apply perm_swap.
Qed.

Lemma sorted_perm (l : list A) : Permutation (sorted key lt l) l.
Proof.
  induction l as [|x l IH]; cbn; [reflexivity|].
  rewrite insert_perm. now constructor.
Qed.

Lemma sorted_length (l : list A) :
  List.length (sorted key lt l) = List.length l.
Proof. apply Permutation_length, sorted_perm. Qed.

Hypothesis lt_asym :
  forall x y, lt (key x) (key y) = true -> lt (key y) (key x) = false.

Lemma insert_Sorted (x : A) (l : list A) :
  Sorted (not_after key lt) l -> Sorted (not_after key lt) (insert key lt x l).
Proof.
  induction l as [|y l IH]; cbn; intros S.
  - repeat constructor.
  - destruct (lt (key y) (key x)) eqn:E.
    + inversion S as [|? ? S' Hd]; subst. constructor; [auto|].
      destruct l as [|z l]; cbn.
      * constructor. apply lt_asym, E.
      * destruct (lt (key z) (key x)).
        -- inversion Hd; subst. now constructor.
        -- constructor. apply lt_asym, E.
    + constructor; [assumption|]. constructor. exact E.
Qed.

Lemma sorted_Sorted (l : list A) :
  Sorted (not_after key lt) (sorted key lt l).
Proof.
  induction l as [|x l IH]; cbn; [constructor|].
  now apply insert_Sorted.
Qed.

(** Stability: elements none of which is smaller than another keep
    their order. *)
Lemma insert_filter (p : A -> bool) (x : A) (l : list A) :
  (forall y, p x = true -> p y = true -> lt (key y) (key x) = false) ->
  filter p (insert key lt x l) = filter p (x :: l).
Proof.
  intros H. induction l as [|y l IH]; cbn; [reflexivity|].
  destruct (lt (key y) (key x)) eqn:E; [|reflexivity].
  cbn. rewrite IH. cbn.
  destruct (p x) eqn:Px, (p y) eqn:Py; try reflexivity.
  rewrite (H y eq_refl Py) in E. discriminate.
Qed.

Lemma sorted_filter (p : A -> bool) (l : list A) :
  (forall x y, p x = true -> p y = true -> lt (key y) (key x) = false) ->
  filter p (sorted key lt l) = filter p l.
Proof.
  intros H. induction l as [|x l IH]; cbn; [reflexivity|].
  rewrite insert_filter by (intros; now apply H).
  cbn. now rewrite IH.
Qed.

End SortedFacts.

(** A list has one stable sort: two sorted permutations of each other
    that order alike the elements the order does not tell apart are the
    same list.  So the result of [sorted] is the result of every stable
    sort. *)
Section StableUnique.
Context {A : Type}.
Variable R : A -> A -> Prop.
Variable eqv : A -> A -> bool.

Hypothesis R_trans : forall x y z, R x y -> R y z -> R x z.
Hypothesis R_eqv : forall x y, R x y -> R y x -> eqv x y = true.

Lemma Sorted_head_least (a : A) (t : list A) (x : A) :
  Sorted R (a :: t) -> In x t -> R a x.
Proof.
  intros S I. apply Sorted_StronglySorted in S; [|exact R_trans].
  inversion S as [|? ? _ F]; subst.
  rewrite Forall_forall in F. now apply F.
Qed.

Lemma stable_sorted_unique (l l' : list A) :
  (forall x, In x l -> eqv x x = true) ->
  Permutation l l' -> Sorted R l -> Sorted R l' ->
  (forall x, filter (eqv x) l = filter (eqv x) l') ->
  l = l'.
Proof.
  revert l'. induction l as [|a t IH]; intros l' Rf P S S' F.
  - now apply Permutation_nil in P.
  - destruct l' as [|b t'].
    { apply Permutation_sym, Permutation_nil in P. discriminate. }
    assert (Ea : eqv a a = true) by (apply Rf; now left).
    assert (E : eqv a b = true).
    { assert (Ib : In b (a :: t))
        by (apply (Permutation_in _ (Permutation_sym P)); now left).
      assert (Ia : In a (b :: t'))
        by (apply (Permutation_in _ P); now left).
      destruct Ib as [->|Ib]; [exact Ea|].
      destruct Ia as [->|Ia]; [exact Ea|].
      apply R_eqv; eapply Sorted_head_least; eauto. }
    pose proof (F a) as Fa. cbn in Fa. rewrite Ea, E in Fa.
    injection Fa as <- _. f_equal.
    apply IH.
    + intros x Ix. apply Rf. now right.
    + eapply Permutation_cons_inv, P.
    + now inversion S.
    + now inversion S'.
    + intros x. specialize (F x). cbn in F.
      destruct (eqv x a); [now injection F | exact F].
Qed.

End StableUnique.

(* ================================================================= *)
(** * The monad and the loops *)
(* ================================================================= *)

Section Loops.

Lemma map_result_app {A B : Type} (f : A -> result B) (l1 l2 : list A) :
  map_result f (l1 ++ l2)
  = match map_result f l1 with
    | Raise e => Raise e
    | Ok r1 =>
        match map_result f l2 with
        | Raise e => Raise e
        | Ok r2 => Ok (r1 ++ r2)
        end
    end.
Proof.
  induction l1 as [|x l1 IH]; cbn.
  - now destruct (map_result f l2).
  - destruct (f x); [|reflexivity]. rewrite IH.
    destruct (map_result f l1); [|reflexivity].
    now destruct (map_result f l2).
Qed.

Lemma map_result_Forall2 {A B : Type} (f : A -> result B) (l : list A)
    (r : list B) :
  map_result f l = Ok r <-> Forall2 (fun a b => f a = Ok b) l r.
Proof.
  revert r. induction l as [|x l IH]; cbn; intros r.
  - split; intros H; [injection H as <-; constructor|].
    inversion H; reflexivity.
  - split.
    + destruct (f x) eqn:Fx; [|discriminate].
      destruct (map_result f l) eqn:Ml; [|discriminate].
      intros H; injection H as <-. constructor; [assumption|].
      now apply IH.
    + intros H. inversion H as [|? b ? bs Fx F2]; subst.
      rewrite Fx. apply IH in F2. now rewrite F2.
Qed.

Lemma map_result_length {A B : Type} (f : A -> result B) (l : list A)
    (r : list B) :
  map_result f l = Ok r -> List.length r = List.length l.
Proof.
  intros H. apply map_result_Forall2 in H.
  symmetry. eapply Forall2_length, H.
Qed.

(** The first element on which [f] raises decides the exception. *)
Lemma map_result_raise {A B : Type} (f : A -> result B) (l : list A)
    (e : exn) :
  map_result f l = Raise e -> exists a, In a l /\ f a = Raise e.
Proof.
  induction l as [|x l IH]; cbn; [discriminate|].
  destruct (f x) eqn:Fx.
  - destruct (map_result f l); [discriminate|].
    intros H; injection H as <-.
    destruct IH as (a' & Ia & Fa); [reflexivity|]. eauto.
  - intros H; injection H as <-. eauto.
Qed.

Lemma map_result_In_raise {A B : Type} (f : A -> result B) (l : list A)
    (a : A) (e : exn) :
  In a l -> f a = Raise e -> exists e', map_result f l = Raise e'.
Proof.
  induction l as [|x l IH]; cbn; [contradiction|].
  intros [->|Ia] Fa.
  - rewrite Fa. eauto.
  - destruct (f x); [|eauto].
    destruct (IH Ia Fa) as (e' & ->). eauto.
Qed.

End Loops.

(* ================================================================= *)
(** * [get_authors]: what it returns and what it requests *)
(* ================================================================= *)

Section GetAuthors.

Variable W : world.

Lemma author_loop (authors : list author_json) (acc : list author) :
  for_each authors author_step acc
  = ([], match map_result build_author authors with
         | Ok r => Ok (acc ++ r)
         | Raise e => Raise e
         end).
Proof.
  revert acc. induction authors as [|a l IH]; intros acc; cbn.
  - unfold ret. now rewrite app_nil_r.
  - unfold author_step, lift, ret, bind at 2.
    destruct (build_author a) as [r|e]; cbn; [|reflexivity].
    rewrite IH. destruct (map_result build_author l); cbn;
      [now rewrite <- app_assoc | reflexivity].
Qed.

Lemma concept_step_eq (cc : option string) (acc : list author)
    (c : concept) :
  concept_step W cc acc c
  = ([Get (authors_url c cc)],
     match map_result build_author (openalex_authors W (authors_url c cc))
     with
     | Ok r => Ok (acc ++ r)
     | Raise e => Raise e
     end).
Proof.
  unfold concept_step. rewrite author_loop. unfold emit, bind.
  now destruct (map_result _ _).
Qed.

Lemma concept_loop_outcome (cc : option string) (concepts : list concept)
    (acc : list author) :
  outcome (for_each concepts (concept_step W cc) acc)
  = match map_result build_author (fetched W concepts cc) with
    | Ok r => Ok (acc ++ r)
    | Raise e => Raise e
    end.
Proof.
  revert acc. induction concepts as [|c l IH]; intros acc.
  - cbn. now rewrite app_nil_r.
  - cbn [for_each]. rewrite concept_step_eq.
    unfold fetched. cbn [flat_map]. fold (fetched W l cc).
    rewrite map_result_app. unfold bind.
    destruct (map_result build_author (openalex_authors W _)) as [r|e];
      [|reflexivity].
    specialize (IH (acc ++ r)). unfold outcome in IH |- *.
    destruct (for_each l (concept_step W cc) (acc ++ r)) as [t o].
    cbn [snd] in IH |- *. rewrite IH.
    destruct (map_result build_author (fetched W l cc));
      [now rewrite <- app_assoc | reflexivity].
Qed.

(** One request per concept, in the order of the concepts, up to the
    concept in whose answer an author makes the division raise. *)
Lemma concept_loop_trace (cc : option string) (concepts : list concept)
    (acc : list author) :
  exists n,
    trace (for_each concepts (concept_step W cc) acc)
    = map (fun c => Get (authors_url c cc)) (firstn n concepts)
    /\ (forall r, outcome (for_each concepts (concept_step W cc) acc) = Ok r ->
        firstn n concepts = concepts).
Proof.
  revert acc. induction concepts as [|c l IH]; intros acc.
  - exists 0%nat. split; reflexivity.
  - cbn [for_each]. rewrite concept_step_eq. unfold bind.
    destruct (map_result build_author (openalex_authors W _)) as [r|e].
    + destruct (IH (acc ++ r)) as (n & Ht & Ho).
      unfold trace, outcome in Ht, Ho |- *.
      destruct (for_each l (concept_step W cc) (acc ++ r)) as [t o].
      cbn [fst snd] in Ht, Ho |- *. exists (S n).
      cbn [firstn map app]. split; [now rewrite Ht|].
      intros r' Hr. now rewrite (Ho r' Hr).
    + exists 1%nat. cbn [firstn map trace outcome fst snd].
      split; [reflexivity | discriminate].
Qed.

Lemma get_authors_outcome (concepts : list concept) (cc : option string) :
  outcome (get_authors W concepts cc)
  = match map_result build_author (fetched W concepts cc) with
    | Ok r => Ok (sorted sort_key tuple_lt r)
    | Raise e => Raise e
    end.
Proof.
  unfold get_authors, bind.
  pose proof (concept_loop_outcome cc concepts []) as H.
  unfold outcome in H |- *.
  destruct (for_each concepts (concept_step W cc) []) as [t [r|e]];
    cbn [snd ret app] in H |- *;
    destruct (map_result build_author (fetched W concepts cc));
    try discriminate; congruence.
Qed.

Lemma get_authors_trace (concepts : list concept) (cc : option string) :
  exists n,
    trace (get_authors W concepts cc)
    = map (fun c => Get (authors_url c cc)) (firstn n concepts)
    /\ (forall r, outcome (get_authors W concepts cc) = Ok r ->
        firstn n concepts = concepts).
Proof.
  destruct (concept_loop_trace cc concepts []) as (n & Ht & Ho).
  exists n. unfold get_authors, bind, trace, outcome in Ht, Ho |- *.
  destruct (for_each concepts (concept_step W cc) []) as [t [r|e]];
    cbn [fst snd ret] in Ht, Ho |- *.
  - rewrite app_nil_r. split; [assumption|]. intros _ _. now apply (Ho r).
  - split; [assumption|]. discriminate.
Qed.

End GetAuthors.

Section GetAuthorsRecords.

Variable W : world.

Lemma Forall2_In_r {A B : Type} (P : A -> B -> Prop) (l : list A)
    (r : list B) (b : B) :
  Forall2 P l r -> In b r -> exists a, In a l /\ P a b.
Proof.
  induction 1 as [|x y l r Pxy _ IH]; cbn; [contradiction|].
  intros [<-|Ib]; [eauto|].
  destruct (IH Ib) as (a & Ia & Pa). eauto.
Qed.

Lemma Forall2_In_l {A B : Type} (P : A -> B -> Prop) (l : list A)
    (r : list B) (a : A) :
  Forall2 P l r -> In a l -> exists b, In b r /\ P a b.
Proof.
  induction 1 as [|x y l r Pxy _ IH]; cbn; [contradiction|].
  intros [<-|Ia]; [eauto|].
  destruct (IH Ia) as (b & Ib & Pb). eauto.
Qed.

(** The fields of the dictionary built from [a]. *)
Lemma build_author_fields (a : author_json) (r : author) :
  build_author a = Ok r ->
  display_name r = a_display_name a
  /\ cited_by_count r = a_cited_by_count a
  /\ works_count r = a_works_count a
  /\ int_true_div (a_cited_by_count a) (a_works_count a)
     = Ok (citing_score r)
  /\ two_year_mean_citedness r = s_2yr_mean_citedness (a_summary_stats a)
  /\ association r
     = match a_last_known_institution a with
       | Some (Some i) => i_display_name i
       | _ => "No institution"
       end.
Proof.
  unfold build_author.
  destruct (int_true_div _ _) as [cs|e]; [|discriminate].
  intros H; injection H as <-. cbn.
  repeat split; try reflexivity.
  now destruct (a_last_known_institution a) as [[i|]|].
Qed.

(** What [get_authors] returns: the dictionaries of the fetched
    authors, sorted. *)
Lemma get_authors_returns (concepts : list concept) (cc : option string)
    (out : list author) :
  outcome (get_authors W concepts cc) = Ok out ->
  exists all,
    map_result build_author (fetched W concepts cc) = Ok all
    /\ out = sorted sort_key tuple_lt all.
Proof.
  rewrite get_authors_outcome.
  destruct (map_result _ _) as [all|e]; [|discriminate].
  intros H; injection H as <-. eauto.
Qed.

Lemma get_authors_In (concepts : list concept) (cc : option string)
    (out : list author) (r : author) :
  outcome (get_authors W concepts cc) = Ok out ->
  In r out ->
  exists a, In a (fetched W concepts cc) /\ build_author a = Ok r.
Proof.
  intros H Ir. apply get_authors_returns in H as (all & Hall & ->).
  apply map_result_Forall2 in Hall.
  apply (Permutation_in _ (sorted_perm sort_key tuple_lt all)) in Ir.
  eapply Forall2_In_r in Hall; eauto.
Qed.

Lemma get_authors_In_fetched (concepts : list concept)
    (cc : option string) (out : list author) (a : author_json) :
  outcome (get_authors W concepts cc) = Ok out ->
  In a (fetched W concepts cc) ->
  exists r, In r out /\ build_author a = Ok r.
Proof.
  intros H Ia. apply get_authors_returns in H as (all & Hall & ->).
  apply map_result_Forall2 in Hall.
  destruct (Forall2_In_l _ _ _ _ Hall Ia) as (r & Ir & Hr).
  exists r. split; [|assumption].
  apply (Permutation_in _ (Permutation_sym
                             (sorted_perm sort_key tuple_lt all))), Ir.
Qed.

Lemma Sorted_adjacent {A : Type} (R : A -> A -> Prop) (l1 l2 : list A)
    (x y : A) :
  Sorted R (l1 ++ x :: y :: l2) -> R x y.
Proof.
  induction l1 as [|z l1 IH]; cbn; intros S.
  - inversion S as [|? ? _ Hd]; subst. now inversion Hd.
  - inversion S; subst. auto.
Qed.

Lemma Sorted_weaken {A : Type} (R R' : A -> A -> Prop) (l : list A) :
  (forall x y, R x y -> R' x y) -> Sorted R l -> Sorted R' l.
Proof.
  intros H. induction 1 as [|x l S IH Hd]; constructor; [assumption|].
  destruct Hd; constructor; auto.
Qed.

Lemma Sorted_weaken_in {A : Type} (R R' : A -> A -> Prop) (l : list A) :
  (forall x y, In x l -> In y l -> R x y -> R' x y) ->
  Sorted R l -> Sorted R' l.
Proof.
  intros H S. induction S as [|x l S IH Hd]; constructor.
  - apply IH. intros u v Iu Iv. apply H; now right.
  - destruct Hd as [|y l' Rxy]; constructor.
    apply H; [now left | right; now left | assumption].
Qed.

Lemma sorted_authors_ranked (all : list author) :
  (forall r, In r all -> is_nan (two_year_mean_citedness r) = false) ->
  Sorted ranked (sorted sort_key tuple_lt all).
Proof.
  intros N. apply Sorted_weaken_in with (R := not_after sort_key tuple_lt).
  - intros x y Ix Iy.
    apply not_tuple_lt_ranked; apply N;
      apply (Permutation_in _ (sorted_perm sort_key tuple_lt all));
      assumption.
  - apply sorted_Sorted. intros x y. apply tuple_lt_asym.
Qed.

(** The records of fetched authors without a NaN have none either. *)
Lemma built_not_nan (l : list author_json) (all : list author) :
  map_result build_author l = Ok all ->
  (forall a, In a l ->
             is_nan (s_2yr_mean_citedness (a_summary_stats a)) = false) ->
  forall r, In r all -> is_nan (two_year_mean_citedness r) = false.
Proof.
  intros H N r Ir. apply map_result_Forall2 in H.
  destruct (Forall2_In_r _ _ _ _ H Ir) as (a & Ia & Ha).
  apply build_author_fields in Ha as (_ & _ & _ & _ & -> & _).
  now apply N.
Qed.

(** A list of two authors or more that is ranked holds no NaN. *)
Lemma Sorted_ranked_not_nan (x y : author) (l : list author) :
  Sorted ranked (x :: y :: l) ->
  forall r, In r (x :: y :: l) -> is_nan (two_year_mean_citedness r) = false.
Proof.
  revert x y. induction l as [|z l IH]; intros x y S.
  - inversion S as [|? ? _ Hd]; subst. inversion Hd as [|? ? Rxy]; subst.
    destruct (ranked_not_nan _ _ Rxy) as [Nx Ny].
    intros r [<-|[<-|[]]]; assumption.
  - inversion S as [|? ? S' Hd]; subst. inversion Hd as [|? ? Rxy]; subst.
    destruct (ranked_not_nan _ _ Rxy) as [Nx _].
    intros r [<-|Ir]; [assumption|]. now apply (IH y z S').
Qed.

(** So no ordering of two authors or more, one of them with the
    citedness NaN, is ranked. *)
Lemma nan_never_ranked (l l' : list author) (r : author) :
  In r l -> is_nan (two_year_mean_citedness r) = true ->
  (2 <= List.length l)%nat ->
  Permutation l' l -> ~ Sorted ranked l'.
Proof.
  intros Ir Nr L P S.
  assert (Ir' : In r l') by (eapply Permutation_in; [symmetry|]; eassumption).
  rewrite <- (Permutation_length P) in L.
  destruct l' as [|x [|y t]]; cbn in L; try lia.
  rewrite (Sorted_ranked_not_nan x y t S r Ir') in Nr. discriminate.
Qed.

End GetAuthorsRecords.

(* ================================================================= *)
(** * The ranking of [get_authors] *)
(* ================================================================= *)

(** C1, as it is stated, fails when the API answers a NaN: with the
    three authors Lo (1.25), NaN and Hi (3.5) the list comes back in
    this order, Hi after Lo, and no ordering of the three is ranked. *)
Lemma get_authors_sorted_counterexample :
  exists out,
    outcome (get_authors Sample.w_nan [Sample.mk_concept "C1"] None) = Ok out
    /\ map display_name out = ["Lo"; "NaN"; "Hi"]
    /\ ~ (forall l1 x y l2, out = l1 ++ x :: y :: l2 ->
            float_le (two_year_mean_citedness y) (two_year_mean_citedness x)
            = true
            /\ (float_eq (two_year_mean_citedness x)
                  (two_year_mean_citedness y) = true ->
                cited_by_count y <= cited_by_count x))
    /\ (forall out', Permutation out' out -> ~ Sorted ranked out').
Proof.
  eexists. split; [vm_compute; reflexivity|]. split; [reflexivity|]. split.
  - intros H. destruct (H [] _ _ _ eq_refl) as [L _]. discriminate L.
  - intros out'.
    match goal with
    | |- Permutation out' (_ :: ?r :: _) -> _ =>
        apply (nan_never_ranked _ out' r)
    end; [right; left; reflexivity | reflexivity | cbn; lia].
Qed.

(** C1, amended.  Whatever the concepts and the country code, if no
    fetched author has the [2yr_mean_citedness] NaN, the list returned
    by [get_authors] is sorted by non-increasing [2yr_mean_citedness],
    and two adjacent authors of equal [2yr_mean_citedness] come with
    non-increasing [cited_by_count]: this holds of every two neighbours
    of the list, and of every two authors of the list, the earlier
    against the later. *)
Theorem get_authors_sorted (W : world) (concepts : list concept)
    (cc : option string) (out : list author) :
  (forall a, In a (fetched W concepts cc) ->
             is_nan (s_2yr_mean_citedness (a_summary_stats a)) = false) ->
  outcome (get_authors W concepts cc) = Ok out ->
  (forall l1 x y l2, out = l1 ++ x :: y :: l2 ->
     float_le (two_year_mean_citedness y) (two_year_mean_citedness x) = true
     /\ (float_eq (two_year_mean_citedness x) (two_year_mean_citedness y)
         = true -> cited_by_count y <= cited_by_count x))
  /\ StronglySorted ranked out.
Proof.
  intros N H. apply get_authors_returns in H as (all & Hall & ->).
  pose proof (sorted_authors_ranked all (built_not_nan _ _ Hall N)) as S.
  split.
  - intros l1 x y l2 E. rewrite E in S.
    exact (Sorted_adjacent _ _ _ _ _ S).
  - apply Sorted_StronglySorted; [|assumption].
    intros x y z. apply ranked_trans.
Qed.

Lemma get_authors_sorted_witness :
  exists out,
    outcome (get_authors Sample.w (map Sample.mk_concept ["C1"; "C2"])
               (Some "DE")) = Ok out
    /\ map display_name out = ["Cyd"; "Ada"; "Ada"; "Bob"]
    /\ StronglySorted ranked out.
Proof.
  eexists. split; [vm_compute; reflexivity|]. split; [reflexivity|].
  apply (get_authors_sorted Sample.w (map Sample.mk_concept ["C1"; "C2"])
           (Some "DE")).
  - intros a Ia. vm_compute in Ia.
    destruct Ia as [<-|[<-|[<-|[<-|[]]]]]; reflexivity.
  - vm_compute; reflexivity.
Defined.

(* ================================================================= *)
(** * The derived fields of an author *)
(* ================================================================= *)

(** C2.  For every author of the list returned by [get_authors] whose
    [works_count] is not zero, [citing_score] is exactly the value of
    [cited_by_count / works_count], the true division of the two ints of
    that same record. *)
Theorem get_authors_citing_score (W : world) (concepts : list concept)
    (cc : option string) (out : list author) (r : author) :
  outcome (get_authors W concepts cc) = Ok out ->
  In r out ->
  works_count r <> 0 ->
  int_true_div (cited_by_count r) (works_count r) = Ok (citing_score r).
Proof.
  intros H Ir _. destruct (get_authors_In W _ _ _ _ H Ir) as (a & _ & Ha).
  apply build_author_fields in Ha as (_ & -> & -> & Hd & _). exact Hd.
Qed.

Lemma get_authors_citing_score_witness :
  exists out r,
    outcome (get_authors Sample.w (map Sample.mk_concept ["C1"; "C2"])
               (Some "DE")) = Ok out
    /\ In r out
    /\ works_count r = 3
    /\ int_true_div (cited_by_count r) (works_count r) = Ok (citing_score r)
    /\ citing_score r = S754_finite false 5629499534213120 (-49).
Proof.
  eexists. eexists. split; [vm_compute; reflexivity|].
  split; [do 3 right; left; reflexivity|].
  split; [reflexivity|]. split; [|reflexivity].
  eapply (get_authors_citing_score Sample.w
            (map Sample.mk_concept ["C1"; "C2"]) (Some "DE")).
  - vm_compute; reflexivity.
  - do 3 right; left; reflexivity.
  - cbn. lia.
Defined.

(** C8.  For every author record built by [get_authors], [association]
    is the [display_name] of the author's [last_known_institution] when
    the API response has that key with a value other than [null], and the
    string ["No institution"] when the key is absent or its value is
    [null].  The records of the returned list are the records built from
    the fetched authors, and every fetched author has its record. *)
Theorem get_authors_association (W : world) (concepts : list concept)
    (cc : option string) (out : list author) :
  outcome (get_authors W concepts cc) = Ok out ->
  (forall a r, build_author a = Ok r ->
     (forall i, a_last_known_institution a = Some (Some i) ->
                association r = i_display_name i)
     /\ (a_last_known_institution a = Some None ->
         association r = "No institution")
     /\ (a_last_known_institution a = None ->
         association r = "No institution"))
  /\ (forall r, In r out ->
        exists a, In a (fetched W concepts cc) /\ build_author a = Ok r)
  /\ (forall a, In a (fetched W concepts cc) ->
        exists r, In r out /\ build_author a = Ok r).
Proof.
  intros H. split; [|split].
  - intros a r Ha. apply build_author_fields in Ha as (_ & _ & _ & _ & _ & E).
    rewrite E. repeat split; intros; subst;
      match goal with
      | K : a_last_known_institution a = _ |- _ => now rewrite K
      end.
  - intros r Ir. eapply get_authors_In; eauto.
  - intros a Ia. eapply get_authors_In_fetched; eauto.
Qed.

Lemma get_authors_association_witness :
  exists out,
    outcome (get_authors Sample.w (map Sample.mk_concept ["C1"; "C2"])
               (Some "DE")) = Ok out
    /\ map association out
       = ["No institution"; "Analytical Society"; "Analytical Society";
          "No institution"]
    /\ (forall r, In r out ->
          exists a,
            In a (fetched Sample.w (map Sample.mk_concept ["C1"; "C2"])
                    (Some "DE"))
            /\ build_author a = Ok r).
Proof.
  eexists. split; [vm_compute; reflexivity|]. split; [reflexivity|].
  apply (get_authors_association Sample.w
           (map Sample.mk_concept ["C1"; "C2"]) (Some "DE")).
  vm_compute; reflexivity.
Defined.

(* ================================================================= *)
(** * No merging of authors *)
(* ================================================================= *)

Lemma filter_perm {A : Type} (p : A -> bool) (l l' : list A) :
  Permutation l l' -> Permutation (filter p l) (filter p l').
Proof.
  induction 1 as [|x l l' _ IH|x y l|l l' l'' _ IH1 _ IH2]; cbn.
  - constructor.
  - destruct (p x); [now constructor | assumption].
  - destruct (p x), (p y); try reflexivity. apply perm_swap.
  - now transitivity (filter p l').
Qed.

Lemma fetched_length (W : world) (concepts : list concept)
    (cc : option string) :
  List.length (fetched W concepts cc)
  = list_sum (map (fun c => List.length
                              (openalex_authors W (authors_url c cc)))
                concepts).
Proof.
  unfold fetched. induction concepts as [|c l IH]; cbn [flat_map map list_sum];
    [reflexivity|].
  now rewrite length_app, IH.
Qed.

(** C10, as it is stated, fails when the API answers a NaN: the
    result is then not sorted by the ranking key, and no ordering of the
    records is. *)
Lemma get_authors_no_merge_counterexample :
  exists out,
    outcome (get_authors Sample.w_nan (map Sample.mk_concept ["C1"; "C2"])
               None) = Ok out
    /\ List.length out = 6%nat
    /\ ~ Sorted ranked out
    /\ (forall out', Permutation out' out -> ~ Sorted ranked out').
Proof.
  eexists. split; [vm_compute; reflexivity|]. split; [reflexivity|].
  assert (K : forall out' l r,
             In r l -> is_nan (two_year_mean_citedness r) = true ->
             (2 <= List.length l)%nat ->
             Permutation out' l -> ~ Sorted ranked out')
    by (intros out' l r; apply nan_never_ranked).
  split.
  - match goal with
    | |- ~ Sorted ranked (?a :: ?r :: ?t) =>
        apply (K (a :: r :: t) (a :: r :: t) r)
    end; [right; left; reflexivity | reflexivity | cbn; lia | reflexivity].
  - intros out'.
    match goal with
    | |- Permutation out' (?a :: ?r :: ?t) -> _ =>
        apply (K out' (a :: r :: t) r)
    end; [right; left; reflexivity | reflexivity | cbn; lia].
Qed.

(** C10, amended.  [get_authors] neither removes nor merges author
    records.  Its result is a permutation of the concatenation, in the
    order of the concepts, of the answers of the API for each concept,
    each author turned into its record: every selection of records is as
    long in the result as in the concatenation, so an author answered
    under several concepts is there once per concept, and the length of
    the result is the sum of the lengths of the answers.  If no fetched
    author has the [2yr_mean_citedness] NaN, the result is exactly that
    concatenation sorted stably by the ranking key: ranked, with the
    authors the key does not tell apart in the order of the
    concatenation, and the only ranked permutation that keeps them
    so. *)
Theorem get_authors_no_merge (W : world) (concepts : list concept)
    (cc : option string) (out : list author) :
  outcome (get_authors W concepts cc) = Ok out ->
  exists all,
    Forall2 (fun a r => build_author a = Ok r)
      (flat_map (fun c => openalex_authors W (authors_url c cc)) concepts)
      all
    /\ Permutation out all
    /\ (forall p : author -> bool,
          List.length (filter p out) = List.length (filter p all))
    /\ List.length out
       = list_sum (map (fun c => List.length
                                   (openalex_authors W (authors_url c cc)))
                     concepts)
    /\ ((forall a,
           In a (flat_map (fun c => openalex_authors W (authors_url c cc))
                   concepts) ->
           is_nan (s_2yr_mean_citedness (a_summary_stats a)) = false) ->
        out = sorted sort_key tuple_lt all
        /\ Sorted ranked out
        /\ (forall x, filter (same_key x) out = filter (same_key x) all)
        /\ (forall out',
              Permutation out' all -> Sorted ranked out' ->
              (forall x, filter (same_key x) out'
                         = filter (same_key x) all) ->
              out' = out)).
Proof.
  intros H. apply get_authors_returns in H as (all & Hall & ->).
  exists all. split; [now apply map_result_Forall2|].
  split; [apply sorted_perm|]. split; [|split].
  - intros p. apply Permutation_length.
    apply filter_perm, sorted_perm.
  - rewrite sorted_length, (map_result_length _ _ _ Hall).
    apply fetched_length.
  - intros N. pose proof (built_not_nan _ _ Hall N) as Nall.
    split; [reflexivity|].
    split; [now apply sorted_authors_ranked|].
    assert (St : forall x, filter (same_key x) (sorted sort_key tuple_lt all)
                           = filter (same_key x) all).
    { intros x. apply sorted_filter. intros u v. apply same_key_not_lt. }
    split; [exact St|].
    intros out' P S F.
    apply (stable_sorted_unique ranked same_key ranked_trans ranked_same_key).
    + intros x Ix. apply same_key_refl, Nall.
      apply (Permutation_in _ P), Ix.
    + rewrite P. symmetry. apply sorted_perm.
    + exact S.
    + now apply sorted_authors_ranked.
    + intros x. now rewrite F, St.
Qed.

Lemma get_authors_no_merge_witness :
  exists out all,
    outcome (get_authors Sample.w (map Sample.mk_concept ["C1"; "C2"])
               (Some "DE")) = Ok out
    /\ map display_name all = ["Bob"; "Ada"; "Cyd"; "Ada"]
    /\ map display_name out = ["Cyd"; "Ada"; "Ada"; "Bob"]
    /\ Permutation out all
    /\ List.length out = 4%nat
    /\ Sorted ranked out.
Proof.
  destruct (get_authors_no_merge Sample.w
              (map Sample.mk_concept ["C1"; "C2"]) (Some "DE") _ eq_refl)
    as (all & F & P & _ & _ & C).
  eexists. exists all. split; [vm_compute; reflexivity|].
  assert (Hall : map_result build_author
                   (fetched Sample.w (map Sample.mk_concept ["C1"; "C2"])
                      (Some "DE")) = Ok all)
    by (apply map_result_Forall2; exact F).
  vm_compute in Hall. injection Hall as <-.
  split; [reflexivity|]. split; [reflexivity|]. split; [exact P|].
  split; [reflexivity|].
  apply C. intros a Ia. vm_compute in Ia.
  destruct Ia as [<-|[<-|[<-|[<-|[]]]]]; reflexivity.
Defined.

(* ================================================================= *)
(** * True division: when it raises *)
(* ================================================================= *)

Section TrueDivision.

(** Some quotients, as Python prints them: [1 / 3] is
    0x1.5555555555555p-2, [10 / 4] is 2.5, [0 / -5] is -0.0,
    [10 ** 23 / 1] is the tie 9.999999999999999e22, and
    [(2 ** 1024 - 2 ** 970 - 1) / 1] is the largest float. *)
Example int_true_div_1_3 :
  int_true_div 1 3 = Ok (S754_finite false 6004799503160661 (-54)).
Proof. vm_compute. reflexivity. Qed.

Example int_true_div_10_4 :
  int_true_div 10 4 = Ok (S754_finite false 5629499534213120 (-51)).
Proof. vm_compute. reflexivity. Qed.

Example int_true_div_0_neg :
  int_true_div 0 (-5) = Ok (S754_zero true).
Proof. vm_compute. reflexivity. Qed.

Example int_true_div_tie :
  int_true_div (10 ^ 23) 1 = Ok (S754_finite false 5960464477539062 24).
Proof. vm_compute. reflexivity. Qed.

Example int_true_div_largest :
  int_true_div (2 ^ 1024 - 2 ^ 970 - 1) 1
  = Ok (S754_finite false 9007199254740991 971).
Proof. vm_compute. reflexivity. Qed.

Example int_true_div_by_zero :
  int_true_div 7 0 = Raise ZeroDivisionError.
Proof. reflexivity. Qed.

Example int_true_div_too_large :
  int_true_div (2 ^ 1024 - 2 ^ 970) 1 = Raise OverflowError.
Proof. vm_compute. reflexivity. Qed.

Lemma digits2_pos_size (p : positive) : digits2_pos p = Pos.size p.
Proof. induction p; cbn; congruence. Qed.

Lemma Zdigits2_log2 (m : Z) : 0 < m -> Zdigits2 m = Z.succ (Z.log2 m).
Proof.
  destruct m as [|p|p]; try lia. intros _.
  destruct p; cbn; rewrite ?digits2_pos_size; lia.
Qed.

Lemma Zdigits2_lt_pow2 (m k : Z) :
  0 <= m -> 0 <= k -> m < 2 ^ k -> Zdigits2 m <= k.
Proof.
  intros Hm Hk H. destruct (Z.eq_dec m 0) as [->|N]; [cbn; lia|].
  rewrite Zdigits2_log2 by lia.
  apply Z.log2_lt_pow2 in H; lia.
Qed.

Lemma Zdigits2_le_pow2 (m k : Z) :
  0 <= m -> 0 <= k -> m <= 2 ^ k -> Zdigits2 m <= k + 1.
Proof.
  intros Hm Hk H. apply Zdigits2_lt_pow2; try lia.
  rewrite Z.pow_add_r by lia. change (2 ^ 1) with 2.
  pose proof (Z.pow_pos_nonneg 2 k). lia.
Qed.

Lemma shr_1_bound (mrs : shr_record) :
  0 <= shr_m mrs ->
  0 <= shr_m (shr_1 mrs) /\ 2 * shr_m (shr_1 mrs) <= shr_m mrs.
Proof.
  destruct mrs as [m r s]. destruct m as [|[p|p|]|p]; cbn; lia.
Qed.

Lemma iter_shr_1_bound (p : positive) (mrs : shr_record) :
  0 <= shr_m mrs ->
  0 <= shr_m (iter_pos shr_1 p mrs)
  /\ 2 ^ Z.pos p * shr_m (iter_pos shr_1 p mrs) <= shr_m mrs.
Proof.
  revert mrs. induction p as [p IH|p IH|]; intros mrs H; cbn [iter_pos].
  - destruct (shr_1_bound mrs H) as [A1 A2].
    destruct (IH _ A1) as [B1 B2]. destruct (IH _ B1) as [C1 C2].
    split; [assumption|].
    replace (Z.pos p~1) with (Z.pos p + Z.pos p + 1) by lia.
    rewrite !Z.pow_add_r by lia. change (2 ^ 1) with 2.
    pose proof (Z.pow_pos_nonneg 2 (Z.pos p)). nia.
  - destruct (IH _ H) as [B1 B2]. destruct (IH _ B1) as [C1 C2].
    split; [assumption|].
    replace (Z.pos p~0) with (Z.pos p + Z.pos p) by lia.
    rewrite !Z.pow_add_r by lia.
    pose proof (Z.pow_pos_nonneg 2 (Z.pos p)). nia.
  - change (2 ^ 1) with 2. apply shr_1_bound, H.
Qed.

(** One step of [binary_round_aux]: the exponent rises to [fexp] of
    the magnitude, and the mantissa shrinks by as much. *)
Lemma shr_fexp_bound (m e : Z) (l : location) (mrs : shr_record) (e' : Z) :
  0 <= m ->
  shr_fexp prec emax m e l = (mrs, e') ->
  e' = Z.max e (fexp prec emax (Zdigits2 m + e))
  /\ 0 <= shr_m mrs
  /\ 2 ^ (e' - e) * shr_m mrs <= m.
Proof.
  intros Hm. unfold shr_fexp, shr.
  set (f := fexp prec emax (Zdigits2 m + e)).
  assert (M : shr_m (shr_record_of_loc m l) = m)
    by (destruct l as [|[| |]]; reflexivity).
  destruct (f - e) as [|p|p] eqn:N; intros H; injection H as <- <-.
  - rewrite M, Z.sub_diag, Z.pow_0_r. lia.
  - destruct (iter_shr_1_bound p (shr_record_of_loc m l)) as [A B];
      [lia|].
    rewrite M in B. replace (e + Z.pos p - e) with (Z.pos p) by lia.
    repeat split; try assumption. lia.
  - rewrite M, Z.sub_diag, Z.pow_0_r. lia.
Qed.

Lemma round_nearest_even_bound (m : Z) (l : location) :
  m <= round_nearest_even m l <= m + 1.
Proof.
  destruct l as [|[| |]]; cbn; try lia. destruct (Z.even m); lia.
Qed.

Lemma pow2_cancel (m p q : Z) :
  0 <= q -> q <= p -> 2 ^ q * m < 2 ^ p -> m < 2 ^ (p - q).
Proof.
  intros Hq Hp H. replace p with ((p - q) + q) in H by lia.
  rewrite Z.pow_add_r in H by lia.
  pose proof (Z.pow_pos_nonneg 2 q). nia.
Qed.

(** A mantissa and exponent under [2 ^ 1023] never round to an
    infinity. *)
Lemma binary_round_aux_finite (sx : bool) (mx ex : Z) (lx : location) :
  0 <= mx -> ex <= 0 -> mx < 2 ^ (1023 - ex) ->
  forall s, binary_round_aux prec emax sx mx ex lx <> S754_infinity s.
Proof.
  intros Hm He Hb s. unfold binary_round_aux.
  destruct (shr_fexp prec emax mx ex lx) as [mrs1 e1] eqn:E1.
  destruct (shr_fexp_bound _ _ _ _ _ Hm E1) as (He1 & Hm1 & Hs1).
  assert (D : Zdigits2 mx + ex <= 1023).
  { pose proof (Zdigits2_lt_pow2 mx (1023 - ex)). lia. }
  assert (B1 : e1 <= 970)
    by (unfold fexp, emin, prec, emax in He1; lia).
  assert (L1 : shr_m mrs1 < 2 ^ (1023 - e1)).
  { replace (1023 - e1) with ((1023 - ex) - (e1 - ex)) by lia.
    apply pow2_cancel; lia. }
  pose proof (round_nearest_even_bound (shr_m mrs1)
                (loc_of_shr_record mrs1)) as R.
  set (m2 := round_nearest_even (shr_m mrs1) (loc_of_shr_record mrs1)) in *.
  destruct (shr_fexp prec emax m2 e1 loc_Exact) as [mrs2 e2] eqn:E2.
  assert (P2 : 0 <= m2) by lia.
  destruct (shr_fexp_bound _ _ _ _ _ P2 E2) as (He2 & Hm2 & Hs2).
  assert (D2 : Zdigits2 m2 + e1 <= 1024).
  { pose proof (Zdigits2_le_pow2 m2 (1023 - e1)). lia. }
  assert (B2 : e2 <= 971)
    by (unfold fexp, emin, prec, emax in He2; lia).
  destruct (shr_m mrs2); try discriminate.
  replace (e2 <=? emax - prec) with true; [discriminate|].
  symmetry. apply Z.leb_le. unfold emax, prec. lia.
Qed.

Lemma SFdiv_core_binary_bound (m1 m2 q e : Z) (l : location) :
  0 < m1 -> 0 < m2 ->
  SFdiv_core_binary prec emax m1 0 m2 0 = (q, e, l) ->
  e <= 0 /\ 0 <= q /\ q <= 2 ^ (- e) * m1.
Proof.
  intros H1 H2. unfold SFdiv_core_binary.
  set (e' := Z.min _ _).
  assert (E : e' <= 0) by (unfold e'; lia).
  clearbody e'.
  set (m' := match 0 - 0 - e' with
             | 0 => m1
             | Z.pos _ => Z.shiftl m1 (0 - 0 - e')
             | Z.neg _ => 0
             end).
  assert (M : m' = 2 ^ (- e') * m1).
  { unfold m'. destruct (0 - 0 - e') as [|p|p] eqn:S; try lia.
    - replace (- e') with 0 by lia. rewrite Z.pow_0_r. lia.
    - rewrite Z.shiftl_mul_pow2 by lia. replace (- e') with (Z.pos p) by lia.
      lia. }
  clearbody m'.
  pose proof (Z_div_mod m' m2 ltac:(lia)) as DM.
  destruct (Z.div_eucl m' m2) as [q' r'].
  intros H; injection H as <- <- <-.
  destruct DM as [DM1 DM2].
  pose proof (Z.pow_pos_nonneg 2 (- e') ltac:(lia) ltac:(lia)).
  repeat split; try assumption; nia.
Qed.

(** [a / b] raises [ZeroDivisionError] exactly when [b] is 0. *)
Lemma int_true_div_zero (a b : Z) :
  int_true_div a b = Raise ZeroDivisionError <-> b = 0.
Proof.
  unfold int_true_div. destruct (Z.eqb_spec b 0) as [->|N].
  - split; reflexivity.
  - split; [|contradiction]. destruct (a =? 0); [discriminate|].
    destruct (SFdiv_core_binary _ _ _ _ _ _) as [[mz ez] lz].
    destruct (binary_round_aux _ _ _ _ _ _); discriminate.
Qed.

(** The only exceptions of [a / b]. *)
Lemma int_true_div_raises (a b : Z) (e : exn) :
  int_true_div a b = Raise e ->
  (e = ZeroDivisionError /\ b = 0) \/ (e = OverflowError /\ b <> 0).
Proof.
  unfold int_true_div. destruct (Z.eqb_spec b 0) as [->|N].
  - intros H; injection H as <-. now left.
  - destruct (a =? 0); [discriminate|].
    destruct (SFdiv_core_binary _ _ _ _ _ _) as [[mz ez] lz].
    destruct (binary_round_aux _ _ _ _ _ _); try discriminate.
    intros H; injection H as <-. now right.
Qed.

(** With a divisor other than 0 and a dividend under [2 ^ 1023] in
    magnitude, [a / b] returns. *)
Lemma int_true_div_returns (a b : Z) :
  b <> 0 -> Z.abs a < 2 ^ 1023 -> exists q, int_true_div a b = Ok q.
Proof.
  intros Hb Ha. unfold int_true_div.
  destruct (Z.eqb_spec b 0) as [|_]; [contradiction|].
  destruct (Z.eqb_spec a 0) as [|Na]; [eauto|].
  destruct (SFdiv_core_binary _ _ _ _ _ _) as [[mz ez] lz] eqn:C.
  apply SFdiv_core_binary_bound in C as (E & Q1 & Q2); try lia.
  pose proof (binary_round_aux_finite
                (xorb (a <? 0) (b <? 0)) mz ez lz Q1 E) as F.
  assert (B : mz < 2 ^ (1023 - ez)).
  { replace (1023 - ez) with (- ez + 1023) by lia.
    rewrite Z.pow_add_r by lia.
    pose proof (Z.pow_pos_nonneg 2 (- ez) ltac:(lia) ltac:(lia)). nia. }
  specialize (F B).
  destruct (binary_round_aux _ _ _ _ _ _) as [s|s| |s m e]; eauto.
  now destruct (F s).
Qed.

End TrueDivision.

(* ================================================================= *)
(** * Exceptions reach the top *)
(* ================================================================= *)

Section Propagation.

Lemma outcome_bind_raise {A B : Type} (m : M A) (f : A -> M B) (e : exn) :
  outcome m = Raise e -> outcome (bind m f) = Raise e.
Proof. destruct m as [t [a|e']]; cbn; congruence. Qed.

Lemma outcome_bind_ok {A B : Type} (m : M A) (f : A -> M B) (a : A) :
  outcome m = Ok a -> outcome (bind m f) = outcome (f a).
Proof.
  destruct m as [t [a'|e']]; cbn; [|discriminate].
  intros H; injection H as ->. now destruct (f a).
Qed.

Lemma trace_bind_ok {A B : Type} (m : M A) (f : A -> M B) (a : A) :
  outcome m = Ok a -> trace (bind m f) = trace m ++ trace (f a).
Proof.
  destruct m as [t [a'|e']]; cbn; [|discriminate].
  intros H; injection H as ->. now destruct (f a).
Qed.

Lemma trace_bind_raise {A B : Type} (m : M A) (f : A -> M B) (e : exn) :
  outcome m = Raise e -> trace (bind m f) = trace m.
Proof. destruct m as [t [a|e']]; cbn; [discriminate | reflexivity]. Qed.

(** A loop one of whose iterations raises in every state raises. *)
Lemma for_each_raises {A S : Type} (l : list A) (body : S -> A -> M S)
    (x : A) :
  In x l ->
  (forall s, exists e, outcome (body s x) = Raise e) ->
  forall s, exists e, outcome (for_each l body s) = Raise e.
Proof.
  intros Ix Hx. induction l as [|y l IH]; [contradiction|].
  intros s. cbn [for_each].
  destruct (outcome (body s y)) as [s'|e] eqn:O.
  - rewrite (outcome_bind_ok _ _ _ O).
    destruct Ix as [->|Ix].
    + destruct (Hx s) as (e & He). congruence.
    + now apply IH.
  - exists e. now apply outcome_bind_raise.
Qed.

Variable W : world.

Lemma get_authors_raises (concepts : list concept) (cc : option string)
    (c : concept) (a : author_json) :
  In c concepts ->
  In a (openalex_authors W (authors_url c cc)) ->
  a_works_count a = 0 ->
  exists e, outcome (get_authors W concepts cc) = Raise e.
Proof.
  intros Ic Ia Hz. rewrite get_authors_outcome.
  assert (F : In a (fetched W concepts cc)).
  { unfold fetched. apply in_flat_map. eauto. }
  assert (R : build_author a = Raise ZeroDivisionError).
  { unfold build_author.
    now rewrite (proj2 (int_true_div_zero (a_cited_by_count a) _) Hz). }
  destruct (map_result_In_raise _ _ _ _ F R) as (e & ->). eauto.
Qed.

Lemma get_concepts_outcome (topic : string) :
  outcome (get_concepts W topic)
  = Ok (map concept_of_result (openalex_concepts W (concepts_url topic))).
Proof. reflexivity. Qed.

Lemma main_raises (topic : string) (cc : option string) (c : concept)
    (a : author_json) :
  In topic (fst (extract_information W query)) ->
  In cc (convert_location_to_alpha2 W
           (snd (extract_information W query))) ->
  In c (slice_to 5 (map concept_of_result
                      (openalex_concepts W (concepts_url topic)))) ->
  In a (openalex_authors W (authors_url c cc)) ->
  a_works_count a = 0 ->
  exists e, outcome (main W) = Raise e.
Proof.
  intros It Icc Ic Ia Hz. unfold main.
  destruct (extract_information W query) as [topics locations].
  cbn [fst snd] in It, Icc.
  rewrite (outcome_bind_ok _ _ tt) by reflexivity.
  rewrite (outcome_bind_ok _ _ tt) by reflexivity.
  replace (len topics =? 0) with false.
  2:{ symmetry. apply Z.eqb_neq. unfold len.
      destruct topics; [contradiction | cbn; lia]. }
  cbn [negb]. apply for_each_raises with (x := topic); [assumption|].
  intros []. unfold topic_step_driver.
  rewrite (outcome_bind_ok _ _ _ (get_concepts_outcome topic)).
  rewrite (outcome_bind_ok _ _ tt) by reflexivity.
  apply for_each_raises with (x := cc); [assumption|].
  intros []. unfold country_step.
  destruct (get_authors_raises _ cc c a Ic Ia Hz) as (e & He).
  exists e. now apply outcome_bind_raise.
Qed.

End Propagation.

(* ================================================================= *)
(** * The unguarded division of [get_authors] *)
(* ================================================================= *)

Lemma map_result_all_ok {A B : Type} (f : A -> result B) (l : list A) :
  (forall a, In a l -> exists b, f a = Ok b) ->
  exists r, map_result f l = Ok r.
Proof.
  induction l as [|x l IH]; cbn; intros H; [eauto|].
  destruct (H x (or_introl eq_refl)) as (b & ->).
  destruct IH as (r & ->); [intros a Ia; apply H; now right|]. eauto.
Qed.

Lemma build_author_raise (a : author_json) (e : exn) :
  build_author a = Raise e ->
  int_true_div (a_cited_by_count a) (a_works_count a) = Raise e.
Proof.
  unfold build_author.
  destruct (int_true_div _ _) as [q|e']; [discriminate | congruence].
Qed.

Lemma build_author_ok (a : author_json) (q : float) :
  int_true_div (a_cited_by_count a) (a_works_count a) = Ok q ->
  exists r, build_author a = Ok r.
Proof.
  unfold build_author. intros ->. eauto.
Qed.

(** The second half of C3 as it is stated fails: an author with one
    work and [2 ^ 1024] citations makes the division raise
    [OverflowError]. *)
Lemma get_authors_overflow_counterexample :
  (forall a, In a (fetched Sample.w [Sample.mk_concept "H"] None) ->
             a_works_count a <> 0)
  /\ outcome (get_authors Sample.w [Sample.mk_concept "H"] None)
     = Raise OverflowError.
Proof.
  split.
  - intros a [<-|[]]. discriminate.
  - vm_compute. reflexivity.
Qed.

(** C3, amended.  [get_authors] divides without a guard.  If a fetched
    author has [works_count] 0, [get_authors] raises, and so does the
    whole run when this happens for a topic of the query, one of its
    first five concepts and one of the country codes.  If every fetched
    author has a [works_count] other than 0, the division never raises
    [ZeroDivisionError]; if moreover every [cited_by_count] is below
    [2 ^ 1023] in magnitude, the division never raises at all and
    [get_authors] returns. *)
Theorem get_authors_division (W : world) (concepts : list concept)
    (cc : option string) :
  (forall c a,
     In c concepts ->
     In a (openalex_authors W (authors_url c cc)) ->
     a_works_count a = 0 ->
     exists e, outcome (get_authors W concepts cc) = Raise e)
  /\ (forall topic c a,
        In topic (fst (extract_information W query)) ->
        In cc (convert_location_to_alpha2 W
                 (snd (extract_information W query))) ->
        In c (slice_to 5 (map concept_of_result
                            (openalex_concepts W (concepts_url topic)))) ->
        In a (openalex_authors W (authors_url c cc)) ->
        a_works_count a = 0 ->
        exists e, outcome (main W) = Raise e)
  /\ ((forall a, In a (fetched W concepts cc) -> a_works_count a <> 0) ->
      outcome (get_authors W concepts cc) <> Raise ZeroDivisionError)
  /\ ((forall a, In a (fetched W concepts cc) ->
                 a_works_count a <> 0
                 /\ Z.abs (a_cited_by_count a) < 2 ^ 1023) ->
      exists out, outcome (get_authors W concepts cc) = Ok out).
Proof.
  split; [|split; [|split]].
  - intros c a. apply get_authors_raises.
  - intros topic c a. apply main_raises.
  - intros H. rewrite get_authors_outcome.
    destruct (map_result _ _) as [r|e] eqn:E; [discriminate|].
    intros K; injection K as ->.
    apply map_result_raise in E as (a & Ia & Ha).
    apply build_author_raise, int_true_div_zero in Ha.
    now apply (H a Ia).
  - intros H. rewrite get_authors_outcome.
    destruct (map_result_all_ok build_author (fetched W concepts cc))
      as (r & ->); [|eauto].
    intros a Ia. destruct (H a Ia) as [H1 H2].
    destruct (int_true_div_returns _ _ H1 H2) as (q & Hq).
    eapply build_author_ok, Hq.
Qed.

Lemma get_authors_division_witness :
  (exists e,
     outcome (get_authors Sample.w (map Sample.mk_concept ["C1"; "Z"]) None)
     = Raise e)
  /\ (exists e, outcome (main Sample.w_zero) = Raise e)
  /\ (exists out,
        outcome (get_authors Sample.w (map Sample.mk_concept ["C1"; "C2"])
                   None) = Ok out).
Proof.
  split; [|split].
  - apply (proj1 (get_authors_division Sample.w
                    (map Sample.mk_concept ["C1"; "Z"]) None)
             (Sample.mk_concept "Z") Sample.dee).
    + right; left; reflexivity.
    + right; left; reflexivity.
    + reflexivity.
  - apply (proj1 (proj2 (get_authors_division Sample.w_zero [] (Some "FR")))
             "Botanic" (Sample.mk_concept "C2") Sample.dee).
    + right; left; reflexivity.
    + left; reflexivity.
    + right; left; reflexivity.
    + right; left; reflexivity.
    + reflexivity.
  - apply (proj2 (proj2 (proj2 (get_authors_division Sample.w
                                  (map Sample.mk_concept ["C1"; "C2"])
                                  None)))).
    intros a Ia. vm_compute in Ia.
    destruct Ia as [<-|[<-|[<-|[<-|[]]]]];
      (split; [discriminate | apply Z.ltb_lt; vm_compute; reflexivity]).
Defined.

(* ================================================================= *)
(** * Country names to alpha-2 codes *)
(* ================================================================= *)

Section Locations.

Variable W : world.

Lemma resolved_filtered_codes (countries : list string) :
  resolved W countries (filtered_codes_of W countries).
Proof.
  unfold filtered_codes_of.
  induction countries as [|n l IH]; cbn [map flat_map]; [constructor|].
  destruct (countries_get_name W n) as [c|] eqn:E.
  - now apply resolved_keep.
  - now apply resolved_drop.
Qed.

Lemma resolved_unique (countries codes : list string) :
  resolved W countries codes -> codes = filtered_codes_of W countries.
Proof.
  unfold filtered_codes_of.
  induction 1 as [|n l cs E _ IH|n c l cs E _ IH]; cbn [map flat_map].
  - reflexivity.
  - now rewrite E.
  - rewrite E. cbn. now rewrite IH.
Qed.

Lemma convert_location_to_alpha2_eq (countries : list string) :
  convert_location_to_alpha2 W countries
  = match filtered_codes_of W countries with
    | [] => [None]
    | codes => map Some codes
    end.
Proof.
  unfold convert_location_to_alpha2. fold (filtered_codes_of W countries).
  destruct (filtered_codes_of W countries) as [|c l]; [reflexivity|].
  replace (len (c :: l) >? 0) with true; [reflexivity|].
  symmetry. apply Z.gtb_lt. unfold len. cbn [List.length]. lia.
Qed.

End Locations.

(** C4.  For every list of country names, [convert_location_to_alpha2]
    returns the alpha-2 codes of the names the table resolves, in the
    order of the input, the other names being dropped without an error;
    when no name resolves it returns the one-element list [[None]].  On
    a table that resolves Germany to DE and Italy to IT and does not
    resolve Tomato, [["Germany"; "Tomato"; "Italy"]] gives
    [["DE"; "IT"]] and [["Tomato"]] gives [[None]]. *)
Theorem convert_location_to_alpha2_correct (W : world)
    (countries : list string) :
  (exists codes, resolved W countries codes)
  /\ (forall codes,
        resolved W countries codes ->
        (codes <> [] ->
         convert_location_to_alpha2 W countries = map Some codes)
        /\ (codes = [] -> convert_location_to_alpha2 W countries = [None]))
  /\ (forall g i,
        countries_get_name W "Germany" = Some g -> alpha_2 g = "DE" ->
        countries_get_name W "Italy" = Some i -> alpha_2 i = "IT" ->
        countries_get_name W "Tomato" = None ->
        convert_location_to_alpha2 W ["Germany"; "Tomato"; "Italy"]
        = [Some "DE"; Some "IT"]
        /\ convert_location_to_alpha2 W ["Tomato"] = [None]).
Proof.
  split; [|split].
  - exists (filtered_codes_of W countries). apply resolved_filtered_codes.
  - intros codes R. apply resolved_unique in R. subst codes.
    rewrite convert_location_to_alpha2_eq.
    destruct (filtered_codes_of W countries); split; congruence.
  - intros g i Hg Dg Hi Di Ht.
    rewrite !convert_location_to_alpha2_eq. unfold filtered_codes_of.
    cbn [map flat_map app]. rewrite Hg, Hi, Ht, Dg, Di. split; reflexivity.
Qed.

Lemma convert_location_to_alpha2_correct_witness :
  convert_location_to_alpha2 Sample.w ["Germany"; "Tomato"; "Italy"]
  = [Some "DE"; Some "IT"]
  /\ convert_location_to_alpha2 Sample.w ["Tomato"] = [None].
Proof.
  apply (proj2 (proj2 (convert_location_to_alpha2_correct Sample.w []))
           {| name := "Germany"; alpha_2 := "DE" |}
           {| name := "Italy"; alpha_2 := "IT" |});
    reflexivity.
Defined.

(* ================================================================= *)
(** * Stop-word removal *)
(* ================================================================= *)

Section StopWords.

Variable W : world.

Lemma mem_In (x : string) (s : list string) : mem x s = true <-> In x s.
Proof.
  unfold mem. rewrite existsb_exists. split.
  - intros (y & Iy & E). apply String.eqb_eq in E. now subst.
  - intros I. exists x. split; [assumption | apply String.eqb_refl].
Qed.

(** A separator is a word of the stop-word table or one of the three
    punctuation marks, whatever its case. *)
Lemma is_stop_iff (word : string) :
  is_stop W word = true
  <-> In (lower word) (stopwords_english W)
      \/ In (lower word) ["."; ","; ";"].
Proof.
  unfold is_stop, stop_words. rewrite mem_In. apply in_app_iff.
Qed.

Lemma len_gtb {A : Type} (l : list A) :
  (len l >? 0) = match l with [] => false | _ => true end.
Proof.
  destruct l; [reflexivity|]. apply Z.gtb_lt. unfold len.
  cbn [List.length]. lia.
Qed.

Lemma word_loop (l : list string) (all : list (list string))
    (cur : list string) :
  fst (fold_left (word_step W) l (all, cur))
    ++ match snd (fold_left (word_step W) l (all, cur)) with
       | [] => []
       | c => [c]
       end
  = all ++ runs_from (is_stop W) l cur.
Proof.
  revert all cur. induction l as [|x l IH]; intros all cur;
    cbn [fold_left runs_from]; [now destruct cur|].
  unfold word_step at 2 4. fold (is_stop W x). rewrite len_gtb.
  destruct (is_stop W x); cbn [negb].
  - destruct cur as [|c cur]; rewrite IH; [reflexivity|].
    now rewrite <- app_assoc.
  - apply IH.
Qed.

Lemma topic_step_eq (all : list (list string)) (topic : string) :
  topic_step W all topic
  = all ++ runs_from (is_stop W) (word_tokenize W topic) [].
Proof.
  unfold topic_step. rewrite <- word_loop.
  destruct (fold_left _ _ _) as [all' cur']. rewrite len_gtb.
  cbn [fst snd]. destruct cur'; [now rewrite app_nil_r | reflexivity].
Qed.

Lemma topics_loop (topics : list string) (all : list (list string)) :
  fold_left (topic_step W) topics all
  = all ++ flat_map (fun t => runs_from (is_stop W) (word_tokenize W t) [])
             topics.
Proof.
  revert all. induction topics as [|t l IH]; intros all;
    cbn [fold_left flat_map]; [now rewrite app_nil_r|].
  now rewrite IH, topic_step_eq, app_assoc.
Qed.

Lemma remove_stop_words_eq (topics : list string) :
  remove_stop_words W topics
  = map (join " ")
      (flat_map (fun t => runs_from (is_stop W) (word_tokenize W t) [])
         topics).
Proof. unfold remove_stop_words. now rewrite topics_loop. Qed.

End StopWords.

Section RunsFacts.
Context {A : Type}.
Variable sep : A -> bool.

Lemma runs_from_all_sep (l : list A) :
  Forall (fun x => sep x = true) l -> runs_from sep l [] = [].
Proof.
  induction 1 as [|x l Hx _ IH]; cbn; [reflexivity|]. now rewrite Hx, IH.
Qed.

Lemma runs_from_run (r l cur : list A) :
  Forall (fun x => sep x = false) r ->
  runs_from sep (r ++ l) cur = runs_from sep l (cur ++ r).
Proof.
  intros H. revert cur. induction H as [|x r Hx _ IH]; intros cur; cbn.
  - now rewrite app_nil_r.
  - rewrite Hx, IH. now rewrite <- app_assoc.
Qed.

(** The computed runs are the maximal runs. *)
Lemma runs_from_runs_of (l cur : list A) :
  Forall (fun x => sep x = false) cur ->
  runs_of sep (cur ++ l) (runs_from sep l cur).
Proof.
  revert cur. induction l as [|x l IH]; intros cur Hc; cbn [runs_from].
  - destruct cur as [|c cur]; [constructor|].
    apply runs_run; [discriminate | assumption | now left | constructor].
  - destruct (sep x) eqn:Hx.
    + assert (R : runs_of sep (x :: l) (runs_from sep l [])).
      { apply runs_sep; [assumption|]. apply (IH []). constructor. }
      destruct cur as [|c cur]; [exact R|].
      apply runs_run; [discriminate | assumption | | exact R].
      right. eauto.
    + replace (cur ++ x :: l) with ((cur ++ [x]) ++ l)
        by (now rewrite <- app_assoc).
      apply IH. apply Forall_app. split; [assumption|].
      now repeat constructor.
Qed.

(** The maximal runs are unique. *)
Lemma runs_of_unique (l : list A) (rs : list (list A)) :
  runs_of sep l rs -> rs = runs_from sep l [].
Proof.
  induction 1 as [|x l rs Hx _ IH|r l rs Hr Fr Hl _ IH]; cbn [runs_from].
  - reflexivity.
  - now rewrite Hx.
  - rewrite runs_from_run by assumption. cbn [app].
    destruct r as [|a r]; [contradiction|].
    destruct Hl as [->|(x & l' & -> & Hx)]; cbn [runs_from].
    + now rewrite IH.
    + rewrite Hx. cbn [app]. rewrite IH. cbn [runs_from].
      now rewrite Hx.
Qed.

End RunsFacts.

(** C6.  If every token of every input phrase is a stop-word (a word
    of the stop-word table, looked up in lower case as the code does) or
    one of the punctuation marks [.], [,], [;], [remove_stop_words]
    returns the empty list. *)
Theorem remove_stop_words_only_stop_words (W : world)
    (phrases : list string) :
  (forall phrase token,
     In phrase phrases -> In token (word_tokenize W phrase) ->
     In (lower token) (stopwords_english W)
     \/ In token ["."; ","; ";"]) ->
  remove_stop_words W phrases = [].
Proof.
  intros H. rewrite remove_stop_words_eq.
  replace (flat_map _ phrases) with (@nil (list string)); [reflexivity|].
  symmetry. induction phrases as [|p l IH]; cbn [flat_map]; [reflexivity|].
  rewrite IH by (intros phrase token Ip; apply H; now right).
  rewrite runs_from_all_sep; [reflexivity|].
  apply Forall_forall. intros token It. apply is_stop_iff.
  destruct (H p token (or_introl eq_refl) It) as [S|P]; [now left|].
  right. destruct P as [<-|[<-|[<-|[]]]]; cbn; tauto.
Qed.

Lemma remove_stop_words_only_stop_words_witness :
  remove_stop_words Sample.w ["I am in the"; "of , and ; The ."] = [].
Proof.
  apply remove_stop_words_only_stop_words.
  intros phrase token [<-|[<-|[]]] It; vm_compute in It;
    repeat (destruct It as [<-|It]; [vm_compute; tauto|]);
    destruct It.
Defined.

(** C7.  [remove_stop_words] tokenizes each phrase and cuts its tokens
    into the maximal runs of tokens that are not stop-words, the
    stop-words and punctuation marks separating the runs; every run has
    at least one token and is emitted as one phrase, its tokens joined
    by a space, in the order of the phrases and of the runs.  With a
    tokenizer that cuts ["the quick brown fox"] at the spaces and a
    stop-word table that holds ["the"] and none of the three other
    words, [remove_stop_words ["the quick brown fox"]] is
    [["quick brown fox"]]. *)
Theorem remove_stop_words_runs (W : world) (phrases : list string) :
  (exists rss,
     Forall2 (fun phrase rs =>
                runs_of (is_stop W) (word_tokenize W phrase) rs)
       phrases rss)
  /\ (forall rss,
        Forall2 (fun phrase rs =>
                   runs_of (is_stop W) (word_tokenize W phrase) rs)
          phrases rss ->
        remove_stop_words W phrases = map (join " ") (List.concat rss)
        /\ Forall (Forall (fun run => 1 <= len run)) rss)
  /\ (word_tokenize W "the quick brown fox"
       = ["the"; "quick"; "brown"; "fox"] ->
      In "the" (stopwords_english W) ->
      ~ In "quick" (stopwords_english W) ->
      ~ In "brown" (stopwords_english W) ->
      ~ In "fox" (stopwords_english W) ->
      remove_stop_words W ["the quick brown fox"] = ["quick brown fox"]).
Proof.
  split; [|split].
  - exists (map (fun t => runs_from (is_stop W) (word_tokenize W t) [])
              phrases).
    induction phrases as [|p l IH]; cbn [map]; constructor; [|assumption].
    apply (runs_from_runs_of (is_stop W) (word_tokenize W p) []).
    constructor.
  - intros rss F. rewrite remove_stop_words_eq. split.
    + f_equal. induction F as [|p rs l rss R _ IH]; cbn [flat_map List.concat];
        [reflexivity|].
      now rewrite IH, (runs_of_unique _ _ _ R).
    + induction F as [|p rs l rss R _ IH]; constructor; [|assumption].
      clear -R. induction R as [| |r l rs Hr _ _ _ IH]; try assumption;
        constructor; try assumption.
      destruct r; [contradiction|]. unfold len. cbn [List.length]. lia.
  - intros T The Quick Brown Fox. rewrite remove_stop_words_eq.
    cbn [flat_map]. rewrite T.
    assert (S1 : is_stop W "the" = true)
      by (apply is_stop_iff; now left).
    assert (N : forall w, lower w = w -> ~ In w (stopwords_english W) ->
                          ~ In w ["."; ","; ";"] -> is_stop W w = false).
    { intros w L H1 H2. destruct (is_stop W w) eqn:E; [|reflexivity].
      apply is_stop_iff in E. rewrite L in E. tauto. }
    assert (P : forall w, String.length w = 5%nat \/ String.length w = 3%nat
                          -> ~ In w ["."; ","; ";"]).
    { intros w L [<-|[<-|[<-|[]]]]; cbn in L; destruct L; discriminate. }
    cbn [runs_from]. rewrite S1. cbn [app runs_from].
    rewrite (N "quick"), (N "brown"), (N "fox");
      try reflexivity; try assumption; try (apply P; cbn; tauto).
Qed.

Lemma remove_stop_words_runs_witness :
  remove_stop_words Sample.w ["the quick brown fox"] = ["quick brown fox"]
  /\ remove_stop_words Sample.w ["Computer Science and Botanic"; "the fox"]
     = ["Computer Science"; "Botanic"; "fox"].
Proof.
  assert (N : forall w, mem w Sample.stopwords = false ->
                        ~ In w (stopwords_english Sample.w)).
  { intros w E I. apply mem_In in I.
    change (stopwords_english Sample.w) with Sample.stopwords in I.
    congruence. }
  split.
  - apply (proj2 (proj2 (remove_stop_words_runs Sample.w []))).
    + reflexivity.
    + apply mem_In. reflexivity.
    + apply N. reflexivity.
    + apply N. reflexivity.
    + apply N. reflexivity.
  - apply (proj1 (proj2 (remove_stop_words_runs Sample.w
                           ["Computer Science and Botanic"; "the fox"]))
             [[["Computer"; "Science"]; ["Botanic"]]; [["fox"]]]).
    apply Forall2_cons; [|apply Forall2_cons; [|apply Forall2_nil]].
    + change (word_tokenize Sample.w "Computer Science and Botanic")
        with (["Computer"; "Science"] ++ ["and"; "Botanic"]).
      apply runs_run;
        [discriminate | now repeat apply Forall_cons | right; eauto |].
      apply runs_sep; [reflexivity|].
      apply (runs_run _ ["Botanic"] []);
        [discriminate | now repeat apply Forall_cons | now left
        | apply runs_nil].
    + change (word_tokenize Sample.w "the fox") with ["the"; "fox"].
      apply runs_sep; [reflexivity|].
      apply (runs_run _ ["fox"] []);
        [discriminate | now repeat apply Forall_cons | now left
        | apply runs_nil].
Defined.

(* ================================================================= *)
(** * The confidence threshold of [anwser_question] *)
(* ================================================================= *)

(** The literal [0.15] is the float [15 / 100]. *)
Lemma float_0_15_quotient : int_true_div 15 100 = Ok float_0_15.
Proof. vm_compute. reflexivity. Qed.

Lemma float_le_not_gt (s t : float) :
  float_le s t = true -> float_gt s t = false.
Proof.
  unfold float_le, float_gt, SFleb, SFltb.
  rewrite (SFcompare_antisym s t).
  destruct (SFcompare s t) as [[| |]|]; cbn; congruence.
Qed.

Lemma filter_app_cons_drop {A : Type} (p : A -> bool) (l1 l2 : list A)
    (a : A) :
  p a = false -> filter p (l1 ++ a :: l2) = filter p (l1 ++ l2).
Proof.
  intros H. rewrite !filter_app. cbn. now rewrite H.
Qed.

(** C5.  Whatever the context and the question, [anwser_question] hands
    to the stop-word removal the texts of exactly the answers of the QA
    model whose score is strictly greater than 0.15.  An answer whose
    score is less than or equal to 0.15 is not among them, and the result
    is what it would be without that answer; the topics and the
    locations of [extract_information] are two such results. *)
Theorem anwser_question_threshold (W : world) (context question : string) :
  anwser_question W context question
  = remove_stop_words W
      (map answer
         (filter (fun a => float_gt (score a) float_0_15)
            (answers W context question)))
  /\ (forall a,
        In a (filter (fun a => float_gt (score a) float_0_15)
                (answers W context question)) ->
        In a (answers W context question)
        /\ float_gt (score a) float_0_15 = true)
  /\ (forall a,
        float_le (score a) float_0_15 = true ->
        ~ In a (filter (fun a => float_gt (score a) float_0_15)
                  (answers W context question)))
  /\ (forall l1 a l2,
        answers W context question = l1 ++ a :: l2 ->
        float_le (score a) float_0_15 = true ->
        anwser_question W context question
        = remove_stop_words W
            (map answer
               (filter (fun a => float_gt (score a) float_0_15)
                  (l1 ++ l2))))
  /\ extract_information W context
     = (anwser_question W context "What am I interested in?",
        anwser_question W context "Which country am I interested in?").
Proof.
  split; [reflexivity|]. split; [|split; [|split; [|reflexivity]]].
  - intros a Ia. now apply filter_In in Ia.
  - intros a Hle Ia. apply filter_In in Ia as [_ Hgt].
    rewrite (float_le_not_gt _ _ Hle) in Hgt. discriminate.
  - intros l1 a l2 E Hle. unfold anwser_question, infos. rewrite E.
    now rewrite filter_app_cons_drop by (now apply float_le_not_gt).
Qed.

Lemma anwser_question_threshold_witness :
  map answer (answers Sample.w Sample.two_sentences "What am I interested in?")
  = ["botany"; "house"]
  /\ anwser_question Sample.w Sample.two_sentences "What am I interested in?"
     = remove_stop_words Sample.w ["botany"]
  /\ anwser_question Sample.w Sample.two_sentences "What am I interested in?"
     = ["botany"].
Proof.
  split; [reflexivity|].
  assert (H : anwser_question Sample.w Sample.two_sentences
                "What am I interested in?"
              = remove_stop_words Sample.w ["botany"]).
  { apply (proj1 (proj2 (proj2 (proj2
             (anwser_question_threshold Sample.w Sample.two_sentences
                "What am I interested in?"))))
             [Sample.qa "What am I interested in?" "I like botany."]
             (Sample.qa "What am I interested in?" "I live in a house.")
             []).
    - reflexivity.
    - reflexivity. }
  split; [exact H|]. rewrite H. reflexivity.
Defined.

(* ================================================================= *)
(** * The driver: five concepts, five authors *)
(* ================================================================= *)

Section Driver.

Variable W : world.

Lemma print_author_eq (a : author) : print_author a = (author_lines a, Ok tt).
Proof. reflexivity. Qed.

Lemma print_loop (authors : list author) :
  for_each authors (fun _ a => print_author a) tt
  = (flat_map author_lines authors, Ok tt).
Proof.
  induction authors as [|a l IH]; [reflexivity|].
  cbn [for_each flat_map]. rewrite print_author_eq. unfold bind.
  now rewrite IH.
Qed.

Lemma print_authors_eq (authors : list author) (cc : option string) :
  print_authors W authors cc
  = match cc with
    | Some c =>
        match countries_get_alpha_2 W c with
        | Some _ =>
            (header_lines W cc ++ flat_map author_lines authors, Ok tt)
        | None => ([], Raise AttributeError)
        end
    | None => (flat_map author_lines authors, Ok tt)
    end.
Proof.
  unfold print_authors, header_lines. rewrite print_loop.
  destruct cc as [c|]; [|reflexivity].
  now destruct (countries_get_alpha_2 W c).
Qed.

Lemma flat_map_author_lines_length (authors : list author) :
  List.length (flat_map author_lines authors)
  = (5 * List.length authors)%nat.
Proof.
  induction authors as [|a l IH]; [reflexivity|].
  cbn [flat_map List.length]. rewrite length_app, IH. cbn. lia.
Qed.

Lemma filter_is_print_lines (authors : list author) :
  filter is_print (flat_map author_lines authors)
  = flat_map author_lines authors.
Proof.
  induction authors as [|a l IH]; [reflexivity|].
  cbn [flat_map]. rewrite filter_app, IH. reflexivity.
Qed.

Lemma requests_app (t1 t2 : list event) :
  requests (t1 ++ t2) = requests t1 ++ requests t2.
Proof. unfold requests. apply flat_map_app. Qed.

Lemma requests_gets {A : Type} (f : A -> string) (l : list A) :
  requests (map (fun x => Get (f x)) l) = map f l.
Proof.
  induction l as [|x l IH]; [reflexivity|]. cbn. now rewrite <- IH.
Qed.

Lemma requests_prints (t : list event) :
  filter is_get t = [] -> requests t = [].
Proof.
  induction t as [|[u|args] t IH]; cbn; [reflexivity|discriminate|apply IH].
Qed.

Lemma requests_length (t : list event) :
  List.length (requests t) = List.length (filter is_get t).
Proof.
  induction t as [|[u|args] t IH]; cbn; [reflexivity| |assumption].
  f_equal. exact IH.
Qed.

Lemma filter_is_get_lines (authors : list author) :
  filter is_get (flat_map author_lines authors) = [].
Proof.
  induction authors as [|a l IH]; [reflexivity|].
  cbn [flat_map]. rewrite filter_app, IH. reflexivity.
Qed.

(** [print_authors] and the final [print] request nothing. *)
Lemma print_authors_requests (authors : list author) (cc : option string)
    (k : unit -> M unit) :
  (forall u, requests (trace (k u)) = []) ->
  requests (trace (bind (print_authors W authors cc) k)) = [].
Proof.
  intros Hk. rewrite print_authors_eq. unfold header_lines.
  destruct cc as [c|]; [destruct (countries_get_alpha_2 W c)|];
    unfold bind; try reflexivity;
    specialize (Hk tt); destruct (k tt) as [t r]; cbn [trace fst] in *;
    rewrite !requests_app, Hk, app_nil_r;
    rewrite ?(requests_prints _ (filter_is_get_lines authors));
    reflexivity.
Qed.

(** What one iteration of the loop over the country codes requests:
    the author URLs of the first five concepts, up to the concept at
    which [get_authors] raises. *)
Lemma country_step_requests (concepts : list concept)
    (cc : option string) :
  exists n,
    requests (trace (country_step W concepts cc))
    = map (fun c => authors_url c cc) (firstn n (firstn 5 concepts))
    /\ (forall authors,
          outcome (get_authors W (firstn 5 concepts) cc) = Ok authors ->
          firstn n (firstn 5 concepts) = firstn 5 concepts).
Proof.
  destruct (get_authors_trace W (firstn 5 concepts) cc) as (n & Ht & Ho).
  exists n. split; [|exact Ho].
  unfold country_step, slice_to.
  destruct (outcome (get_authors W (firstn 5 concepts) cc))
    as [authors|e] eqn:O.
  - rewrite (trace_bind_ok _ _ _ O), requests_app, Ht, requests_gets.
    rewrite print_authors_requests by reflexivity. apply app_nil_r.
  - rewrite (trace_bind_raise _ _ _ O), Ht. apply requests_gets.
Qed.

(** What one iteration prints when [get_authors] returns and the
    country code, if any, is in the table. *)
Lemma country_step_trace (concepts : list concept) (cc : option string)
    (authors : list author) :
  outcome (get_authors W (firstn 5 concepts) cc) = Ok authors ->
  (forall c, cc = Some c -> countries_get_alpha_2 W c <> None) ->
  trace (country_step W concepts cc)
  = map (fun c => Get (authors_url c cc)) (firstn 5 concepts)
      ++ header_lines W cc
      ++ flat_map author_lines (firstn 5 authors)
      ++ [Print [VStr (nl ++ nl)]].
Proof.
  intros O Hc. unfold country_step, slice_to.
  rewrite (trace_bind_ok _ _ _ O).
  destruct (get_authors_trace W (firstn 5 concepts) cc) as (n & Ht & Ho).
  rewrite Ht, (Ho _ O). f_equal.
  rewrite print_authors_eq. unfold header_lines.
  destruct cc as [c|]; [|unfold bind, print, emit; cbn [trace fst app];
                          reflexivity].
  specialize (Hc c eq_refl).
  destruct (countries_get_alpha_2 W c); [|contradiction].
  unfold bind, print, emit. cbn [trace fst]. now rewrite <- app_assoc.
Qed.

End Driver.

Section Counting.

Variable p : event -> bool.

Lemma count_bind {A B : Type} (m : M A) (f : A -> M B) (k1 k2 : nat) :
  (List.length (filter p (trace m)) <= k1)%nat ->
  (forall a, (List.length (filter p (trace (f a))) <= k2)%nat) ->
  (List.length (filter p (trace (bind m f))) <= k1 + k2)%nat.
Proof.
  intros H1 H2. destruct m as [t [a|e]]; unfold bind, trace in *;
    cbn [fst] in *.
  - specialize (H2 a). destruct (f a) as [t' r]. cbn [fst] in *.
    rewrite filter_app, length_app. lia.
  - lia.
Qed.

Lemma count_for_each {A St : Type} (l : list A) (body : St -> A -> M St)
    (k : nat) (s : St) :
  (forall s x, (List.length (filter p (trace (body s x))) <= k)%nat) ->
  (List.length (filter p (trace (for_each l body s))) <= List.length l * k)%nat.
Proof.
  intros H. revert s. induction l as [|x l IH]; intros s;
    cbn [for_each List.length]; [cbn; lia|].
  replace (S (List.length l) * k)%nat with (k + List.length l * k)%nat
    by lia.
  apply count_bind; [apply H | apply IH].
Qed.

End Counting.

Section DriverCounts.

Variable W : world.

Lemma country_step_gets (concepts : list concept) (cc : option string) :
  (List.length (filter is_get (trace (country_step W concepts cc))) <= 5)%nat.
Proof.
  destruct (country_step_requests W concepts cc) as (n & E & _).
  rewrite <- requests_length, E, length_map, !length_firstn. lia.
Qed.

Lemma get_authors_prints (concepts : list concept) (cc : option string) :
  filter is_print (trace (get_authors W concepts cc)) = [].
Proof.
  destruct (get_authors_trace W concepts cc) as (n & -> & _).
  induction (firstn n concepts) as [|c l IH]; [reflexivity | exact IH].
Qed.

Lemma country_step_prints (concepts : list concept) (cc : option string) :
  (List.length (filter is_print (trace (country_step W concepts cc)))
   <= 27)%nat.
Proof.
  unfold country_step. change 27%nat with (0 + 27)%nat.
  apply count_bind; [now rewrite get_authors_prints|].
  intros authors. rewrite print_authors_eq. unfold header_lines, slice_to.
  assert (L : (List.length (flat_map author_lines (firstn 5 authors))
               <= 25)%nat).
  { rewrite flat_map_author_lines_length, length_firstn. lia. }
  set (lines := flat_map author_lines (firstn 5 authors)) in *.
  assert (F : filter is_print lines = lines)
    by apply filter_is_print_lines.
  clearbody lines.
  destruct cc as [c|]; [destruct (countries_get_alpha_2 W c)|];
    unfold bind, print, emit; cbn [trace fst];
    rewrite ?filter_app, ?length_app, ?F; cbn; lia.
Qed.

Lemma topic_step_driver_gets (locations : list string) (topic : string) :
  (List.length (filter is_get (trace (topic_step_driver W locations topic)))
   <= 1 + List.length (convert_location_to_alpha2 W locations) * 5)%nat.
Proof.
  unfold topic_step_driver. apply count_bind; [cbn; lia|].
  intros concepts.
  change (List.length (convert_location_to_alpha2 W locations) * 5)%nat
    with (0 + List.length (convert_location_to_alpha2 W locations) * 5)%nat.
  apply count_bind; [cbn; lia|]. intros _.
  apply count_for_each. intros [] cc. apply country_step_gets.
Qed.

Lemma main_gets :
  (List.length (filter is_get (trace (main W)))
   <= List.length (fst (extract_information W query))
      * (1 + List.length
               (convert_location_to_alpha2 W
                  (snd (extract_information W query))) * 5))%nat.
Proof.
  unfold main. destruct (extract_information W query) as [topics locations].
  cbn [fst snd].
  set (k := (1 + List.length (convert_location_to_alpha2 W locations) * 5)%nat).
  change (List.length topics * k)%nat with (0 + (0 + List.length topics * k))%nat.
  apply count_bind; [cbn; lia|]. intros _.
  apply count_bind; [cbn; lia|]. intros _.
  destruct (negb (len topics =? 0)).
  - apply count_for_each. intros [] topic. apply topic_step_driver_gets.
  - cbn. lia.
Qed.

End DriverCounts.

(** C9.  In every iteration of the driver loop, whatever the world, the
    call is [get_authors (concepts[:5], country_code)] followed by
    [print_authors (authors[:5], country_code)], with the literal 5 in
    both places: at most five concepts and five authors are passed.  The
    iteration requests the author URLs of the first five concepts and of
    no other, in order, and prints the five lines of each of the first
    five sorted authors and of no other; it makes at most 5 requests and
    at most 27 prints, and the whole run at most 1 + 5 * (number of
    country codes) requests per topic. *)
Theorem driver_truncation (W : world) (concepts : list concept)
    (cc : option string) :
  country_step W concepts cc
  = (authors <- get_authors W (firstn 5 concepts) cc ;;
     print_authors W (firstn 5 authors) cc ;;;
     print [VStr (nl ++ nl)])
  /\ (List.length (firstn 5 concepts) <= 5)%nat
  /\ (forall authors : list author, (List.length (firstn 5 authors) <= 5)%nat)
  /\ (exists n,
        requests (trace (country_step W concepts cc))
        = map (fun c => authors_url c cc) (firstn n (firstn 5 concepts)))
  /\ (forall authors,
        outcome (get_authors W (firstn 5 concepts) cc) = Ok authors ->
        (forall c, cc = Some c -> countries_get_alpha_2 W c <> None) ->
        trace (country_step W concepts cc)
        = map (fun c => Get (authors_url c cc)) (firstn 5 concepts)
            ++ header_lines W cc
            ++ flat_map author_lines (firstn 5 authors)
            ++ [Print [VStr (nl ++ nl)]])
  /\ (List.length (filter is_get (trace (country_step W concepts cc))) <= 5)%nat
  /\ (List.length (filter is_print (trace (country_step W concepts cc)))
      <= 27)%nat
  /\ (forall locations topic,
        topic_step_driver W locations topic
        = (concepts <- get_concepts W topic ;;
           print [VStr ("Results for the topic: " ++ dquote ++ topic
                          ++ dquote)] ;;;
           for_each (convert_location_to_alpha2 W locations)
             (fun _ cc => country_step W concepts cc) tt))
  /\ (List.length (filter is_get (trace (main W)))
      <= List.length (fst (extract_information W query))
         * (1 + List.length
                  (convert_location_to_alpha2 W
                     (snd (extract_information W query))) * 5))%nat.
Proof.
  split; [reflexivity|].
  split; [rewrite length_firstn; lia|].
  split; [intros authors; rewrite length_firstn; lia|].
  split.
  { destruct (country_step_requests W concepts cc) as (n & E & _). eauto. }
  split; [apply country_step_trace|].
  split; [apply country_step_gets|].
  split; [apply country_step_prints|].
  split; [reflexivity | apply main_gets].
Qed.

Lemma driver_truncation_witness :
  requests (trace (country_step Sample.w
                     (map Sample.mk_concept
                        ["C1"; "C2"; "C3"; "C4"; "C5"; "C6"; "C7"])
                     None))
  = map (fun c => authors_url c None)
      (map Sample.mk_concept ["C1"; "C2"; "C3"; "C4"; "C5"])
  /\ (List.length
        (filter is_print
           (trace (country_step Sample.w
                     (map Sample.mk_concept
                        ["C1"; "C2"; "C3"; "C4"; "C5"; "C6"; "C7"])
                     None))) <= 27)%nat
  /\ (List.length (filter is_get (trace (main Sample.w))) <= 2 * (1 + 3 * 5))%nat.
Proof.
  pose proof (driver_truncation Sample.w
                (map Sample.mk_concept
                   ["C1"; "C2"; "C3"; "C4"; "C5"; "C6"; "C7"]) None)
    as (_ & _ & _ & _ & T & _ & P & _ & G).
  split; [|split; [exact P | exact G]].
  rewrite (T _ eq_refl) by discriminate.
  vm_compute. reflexivity.
Defined.

(* ================================================================= *)
(** * Further properties of the stop-word removal *)
(* ================================================================= *)

Section RunsMore.
Context {A : Type}.
Variable sep : A -> bool.

Lemma concat_runs_from (l cur : list A) :
  List.concat (runs_from sep l cur)
  = cur ++ filter (fun x => negb (sep x)) l.
Proof.
  revert cur. induction l as [|x l IH]; intros cur; cbn [runs_from filter].
  - destruct cur; cbn; now rewrite ?app_nil_r.
  - destruct (sep x); cbn [negb].
    + rewrite concat_app, IH. destruct cur; cbn; now rewrite ?app_nil_r.
    + rewrite IH. now rewrite <- app_assoc.
Qed.

Lemma runs_from_wf (l cur : list A) :
  Forall (fun x => sep x = false) cur ->
  Forall (fun r => r <> [] /\ Forall (fun x => sep x = false) r)
    (runs_from sep l cur).
Proof.
  revert cur. induction l as [|x l IH]; intros cur Hc; cbn [runs_from].
  - destruct cur; constructor; [|constructor]. split; [discriminate|exact Hc].
  - destruct (sep x) eqn:Hx.
    + apply Forall_app. split; [|apply IH; constructor].
      destruct cur; constructor; [|constructor].
      split; [discriminate|exact Hc].
    + apply IH. apply Forall_app. split; [assumption|].
      now repeat constructor.
Qed.

Lemma runs_from_single (r : list A) :
  r <> [] -> Forall (fun x => sep x = false) r -> runs_from sep r [] = [r].
Proof.
  intros N F. rewrite <- (app_nil_r r) at 1.
  rewrite runs_from_run by assumption. cbn.
  destruct r; [contradiction | reflexivity].
Qed.

End RunsMore.

Section StopWordsMore.

Variable W : world.

Lemma kept_runs_eq (phrases : list string) :
  kept_runs W phrases
  = flat_map (fun t => runs_from (is_stop W) (word_tokenize W t) []) phrases.
Proof. unfold kept_runs. now rewrite topics_loop. Qed.

Lemma kept_runs_wf (phrases : list string) :
  Forall (fun r => r <> [] /\ Forall (fun x => is_stop W x = false) r)
    (kept_runs W phrases).
Proof.
  rewrite kept_runs_eq. induction phrases as [|p l IH]; cbn [flat_map];
    [constructor|].
  apply Forall_app. split; [|assumption].
  apply runs_from_wf. constructor.
Qed.

End StopWordsMore.

(** X1.  [remove_stop_words] drops the stop-words and punctuation marks
    and nothing else: the tokens of the runs it joins are, in order, the
    tokens of the phrases that are not separators, each as the tokenizer
    gave it; no run is empty and no run holds a separator. *)
Theorem remove_stop_words_keeps_tokens (W : world) (phrases : list string) :
  remove_stop_words W phrases = map (join " ") (kept_runs W phrases)
  /\ List.concat (kept_runs W phrases)
     = filter (fun w => negb (is_stop W w))
         (flat_map (word_tokenize W) phrases)
  /\ Forall (fun run => run <> []
                        /\ Forall (fun w => is_stop W w = false) run)
       (kept_runs W phrases).
Proof.
  split; [reflexivity|]. split; [|apply kept_runs_wf].
  rewrite kept_runs_eq.
  induction phrases as [|p l IH]; cbn [flat_map]; [reflexivity|].
  now rewrite concat_app, filter_app, IH, concat_runs_from.
Qed.

(** X2.  The phrases are processed one by one and a run never spans two
    phrases: the result for a concatenation of two lists of phrases is
    the concatenation of the results. *)
Theorem remove_stop_words_app (W : world) (phrases1 phrases2 : list string) :
  remove_stop_words W (phrases1 ++ phrases2)
  = remove_stop_words W phrases1 ++ remove_stop_words W phrases2.
Proof.
  rewrite !remove_stop_words_eq. now rewrite flat_map_app, map_app.
Qed.

(** X3.  When the tokenizer cuts every emitted phrase back into the
    tokens it was joined from, removing the stop-words a second time
    changes nothing. *)
Theorem remove_stop_words_idempotent (W : world) (phrases : list string) :
  (forall run, In run (kept_runs W phrases) ->
               word_tokenize W (join " " run) = run) ->
  remove_stop_words W (remove_stop_words W phrases)
  = remove_stop_words W phrases.
Proof.
  intros H.
  assert (E : remove_stop_words W phrases
              = map (join " ") (kept_runs W phrases)) by reflexivity.
  rewrite E. pose proof (kept_runs_wf W phrases) as F.
  rewrite remove_stop_words_eq. f_equal. clear E. revert H F.
  generalize (kept_runs W phrases) as rs.
  induction rs as [|r rs IH]; intros H F; [reflexivity|].
  cbn [map flat_map]. inversion F as [|? ? [N Fr] F']; subst.
  rewrite (H r (or_introl eq_refl)), (runs_from_single _ _ N Fr).
  cbn [app]. f_equal. apply IH; [|assumption].
  intros run I. apply H. now right.
Qed.

Lemma remove_stop_words_idempotent_witness :
  remove_stop_words Sample.w
    (remove_stop_words Sample.w ["Computer Science and Botanic"; "the fox"])
  = ["Computer Science"; "Botanic"; "fox"].
Proof.
  rewrite (remove_stop_words_idempotent Sample.w
             ["Computer Science and Botanic"; "the fox"]).
  - reflexivity.
  - intros run I. vm_compute in I.
    destruct I as [<-|[<-|[<-|[]]]]; reflexivity.
Defined.

(* ================================================================= *)
(** * Further properties of the extraction *)
(* ================================================================= *)

Lemma filter_none {A : Type} (p : A -> bool) (l : list A) :
  (forall x, In x l -> p x = false) -> filter p l = [].
Proof.
  induction l as [|x l IH]; cbn; intros H; [reflexivity|].
  rewrite (H x (or_introl eq_refl)). apply IH. intros y Iy. apply H. now right.
Qed.

Lemma float_gt_nan (s t : float) : is_nan s = true -> float_gt s t = false.
Proof. destruct s; try discriminate. intros _. now destruct t. Qed.

Lemma anwser_question_nil (W : world) (context question : string) :
  (forall c, In c (sent_tokenize W context) ->
     is_nan (score (qa_model W question c)) = true
     \/ float_le (score (qa_model W question c)) float_0_15 = true) ->
  anwser_question W context question = [].
Proof.
  intros H. unfold anwser_question, infos. rewrite filter_none; [reflexivity|].
  intros a Ia. unfold answers in Ia. apply in_map_iff in Ia as (c & <- & Ic).
  destruct (H c Ic) as [N|L];
    [now apply float_gt_nan | now apply float_le_not_gt].
Qed.

(** X4.  When no sentence of the context gets a confident answer, the
    score of each being a NaN or at most 0.15, [anwser_question] returns
    the empty list; a context without sentences is one such case. *)
Theorem anwser_question_no_confident_answer (W : world)
    (context question : string) :
  (forall c, In c (sent_tokenize W context) ->
     is_nan (score (qa_model W question c)) = true
     \/ float_le (score (qa_model W question c)) float_0_15 = true) ->
  anwser_question W context question = [].
Proof. apply anwser_question_nil. Qed.

Lemma anwser_question_no_confident_answer_witness :
  anwser_question Sample.w_quiet Sample.two_sentences
    "What am I interested in?" = [].
Proof.
  apply anwser_question_no_confident_answer.
  intros c _. right. reflexivity.
Defined.

(** X5.  When the QA model has no confident answer to the question of
    interest on any sentence of the query, the run makes no HTTP
    request: it prints the (empty) topics, the locations and
    ["No topics found!"], and ends without an exception. *)
Theorem main_no_topics (W : world) :
  (forall c, In c (sent_tokenize W query) ->
     is_nan (score (qa_model W "What am I interested in?" c)) = true
     \/ float_le (score (qa_model W "What am I interested in?" c))
          float_0_15 = true) ->
  main W
  = ([Print [VStr "The inferred topics are:"; VStr EmptyString];
      Print [VStr "The inferred locations are:";
             VStr (join ", "
                     (anwser_question W query
                        "Which country am I interested in?"))];
      Print [VStr "No topics found!"]],
     Ok tt)
  /\ requests (trace (main W)) = [].
Proof.
  intros H. apply anwser_question_nil in H.
  assert (E : main W
              = ([Print [VStr "The inferred topics are:"; VStr EmptyString];
                  Print [VStr "The inferred locations are:";
                         VStr (join ", "
                                 (anwser_question W query
                                    "Which country am I interested in?"))];
                  Print [VStr "No topics found!"]],
                 Ok tt)).
  { unfold main, extract_information. rewrite H. reflexivity. }
  split; [exact E|]. rewrite E. reflexivity.
Qed.

Lemma main_no_topics_witness :
  main Sample.w_quiet
  = ([Print [VStr "The inferred topics are:"; VStr EmptyString];
      Print [VStr "The inferred locations are:"; VStr EmptyString];
      Print [VStr "No topics found!"]],
     Ok tt).
Proof.
  refine (proj1 (main_no_topics Sample.w_quiet _)).
  intros c _. right. reflexivity.
Defined.

(* ================================================================= *)
(** * Further properties of the country codes *)
(* ================================================================= *)

Lemma filtered_codes_of_length (W : world) (countries : list string) :
  (List.length (filtered_codes_of W countries) <= List.length countries)%nat.
Proof.
  unfold filtered_codes_of.
  induction countries as [|n l IH]; cbn [map flat_map List.length]; [lia|].
  destruct (countries_get_name W n); cbn [app List.length]; lia.
Qed.

Lemma filtered_codes_of_none (W : world) (countries : list string) :
  (forall n, In n countries -> countries_get_name W n = None) ->
  filtered_codes_of W countries = [].
Proof.
  unfold filtered_codes_of.
  induction countries as [|n l IH]; intros H; cbn [map flat_map];
    [reflexivity|].
  rewrite (H n (or_introl eq_refl)). cbn [app]. apply IH.
  intros m Im. apply H. now right.
Qed.

(** X6.  [convert_location_to_alpha2] never returns the empty list, so
    the loop over its result runs at least once; [None] appears in the
    result only as the whole result [[None]], never beside a code; and
    the result has at most as many elements as there are names, or one
    when there is no name. *)
Theorem convert_location_to_alpha2_nonempty (W : world)
    (countries : list string) :
  convert_location_to_alpha2 W countries <> []
  /\ (In None (convert_location_to_alpha2 W countries) ->
      convert_location_to_alpha2 W countries = [None])
  /\ (List.length (convert_location_to_alpha2 W countries)
      <= Nat.max 1 (List.length countries))%nat.
Proof.
  rewrite convert_location_to_alpha2_eq.
  pose proof (filtered_codes_of_length W countries) as L.
  destruct (filtered_codes_of W countries) as [|c l].
  - split; [discriminate|]. split; [reflexivity|].
    cbn [List.length]. lia.
  - split; [discriminate|]. split.
    + intros I. apply in_map_iff in I as (x & E & _). discriminate.
    + rewrite length_map. lia.
Qed.

Lemma convert_location_to_alpha2_nonempty_witness :
  convert_location_to_alpha2 Sample.w ["Tomato"; "Atlantis"] = [None]
  /\ (List.length (convert_location_to_alpha2 Sample.w ["Italy"; "Tomato"])
      <= 2)%nat.
Proof.
  split.
  - apply (proj1 (proj2 (convert_location_to_alpha2_nonempty Sample.w
                           ["Tomato"; "Atlantis"]))).
    left. reflexivity.
  - apply (proj2 (proj2 (convert_location_to_alpha2_nonempty Sample.w
                           ["Italy"; "Tomato"]))).
Defined.

(* ================================================================= *)
(** * Further properties of [get_authors] *)
(* ================================================================= *)

Lemma map_result_first_raise {A B : Type} (f : A -> result B) (l : list A)
    (e : exn) :
  map_result f l = Raise e
  <-> exists l1 a l2,
        l = l1 ++ a :: l2
        /\ Forall (fun x => exists b, f x = Ok b) l1
        /\ f a = Raise e.
Proof.
  split.
  - induction l as [|x l IH]; cbn; [discriminate|].
    destruct (f x) as [y|e'] eqn:Fx.
    + destruct (map_result f l) as [r|e'']; [discriminate|].
      intros H; injection H as ->.
      destruct (IH eq_refl) as (l1 & a & l2 & -> & F1 & Fa).
      exists (x :: l1), a, l2. repeat split; try assumption.
      constructor; eauto.
    + intros H; injection H as ->. exists [], x, l. repeat split; auto.
  - intros (l1 & a & l2 & -> & F1 & Fa).
    induction F1 as [|x l1 (b & Fx) _ IH]; cbn.
    + now rewrite Fa.
    + now rewrite Fx, IH.
Qed.

Section GetAuthorsMore.

Variable W : world.

Lemma concept_loop_raise (cc : option string) (concepts : list concept)
    (acc : list author) (e : exn) :
  outcome (for_each concepts (concept_step W cc) acc) = Raise e ->
  exists l1 c l2,
    concepts = l1 ++ c :: l2
    /\ (exists r, map_result build_author (fetched W l1 cc) = Ok r)
    /\ map_result build_author (openalex_authors W (authors_url c cc))
       = Raise e
    /\ trace (for_each concepts (concept_step W cc) acc)
       = map (fun c => Get (authors_url c cc)) (l1 ++ [c]).
Proof.
  revert acc. induction concepts as [|c l IH]; intros acc; [discriminate|].
  cbn [for_each]. rewrite concept_step_eq. unfold bind.
  destruct (map_result build_author (openalex_authors W (authors_url c cc)))
    as [r|e0] eqn:E.
  - specialize (IH (acc ++ r)). unfold trace, outcome in IH |- *.
    destruct (for_each l (concept_step W cc) (acc ++ r)) as [t o].
    cbn [fst snd] in IH |- *. intros O.
    destruct (IH O) as (l1 & c' & l2 & -> & (r1 & R1) & Rc & Ht).
    exists (c :: l1), c', l2. split; [reflexivity|]. split; [|split].
    + unfold fetched in R1 |- *. cbn [flat_map].
      rewrite map_result_app, E, R1. eauto.
    + exact Rc.
    + cbn [app map]. now rewrite Ht.
  - cbn [outcome trace fst snd]. intros O; injection O as ->.
    exists [], c, l. split; [reflexivity|]. split; [|split].
    + exists []. reflexivity.
    + exact E.
    + reflexivity.
Qed.

Lemma binary_round_aux_not_nan (sx : bool) (mx ex : Z) (lx : location) :
  0 <= mx -> binary_round_aux prec emax sx mx ex lx <> S754_nan.
Proof.
  intros Hm. unfold binary_round_aux.
  destruct (shr_fexp prec emax mx ex lx) as [mrs1 e1] eqn:E1.
  destruct (shr_fexp_bound _ _ _ _ _ Hm E1) as (_ & Hm1 & _).
  pose proof (round_nearest_even_bound (shr_m mrs1)
                (loc_of_shr_record mrs1)) as R.
  set (m2 := round_nearest_even (shr_m mrs1) (loc_of_shr_record mrs1)) in *.
  destruct (shr_fexp prec emax m2 e1 loc_Exact) as [mrs2 e2] eqn:E2.
  assert (P2 : 0 <= m2) by lia.
  destruct (shr_fexp_bound _ _ _ _ _ P2 E2) as (_ & Hm2 & _).
  destruct (shr_m mrs2) as [|p|p]; [discriminate| |lia].
  destruct (e2 <=? emax - prec); discriminate.
Qed.

Lemma int_true_div_finite (a b : Z) (q : float) :
  int_true_div a b = Ok q -> is_finite q = true.
Proof.
  unfold int_true_div. destruct (Z.eqb_spec b 0) as [|Nb]; [discriminate|].
  destruct (Z.eqb_spec a 0) as [|Na].
  - intros H; injection H as <-. reflexivity.
  - destruct (SFdiv_core_binary _ _ _ _ _ _) as [[mz ez] lz] eqn:C.
    apply SFdiv_core_binary_bound in C as (_ & Q & _); try lia.
    pose proof (binary_round_aux_not_nan (xorb (a <? 0) (b <? 0)) mz ez lz Q)
      as N.
    destruct (binary_round_aux _ _ _ _ _ _); try discriminate;
      try contradiction; intros H; injection H as <-; reflexivity.
Qed.

Lemma StronglySorted_app_rel {A : Type} (R : A -> A -> Prop)
    (l1 l2 : list A) (x y : A) :
  StronglySorted R (l1 ++ l2) -> In x l1 -> In y l2 -> R x y.
Proof.
  induction l1 as [|z l1 IH]; cbn; [contradiction|].
  intros S [->|Ix] Iy; inversion S as [|? ? S' F]; subst.
  - rewrite Forall_forall in F. apply F, in_or_app. now right.
  - now apply IH.
Qed.

End GetAuthorsMore.

(** X7.  [get_authors] requests the authors of the concepts one after
    the other and stops at the first exception.  When it returns it has
    requested the URL of every concept once, in the order of the
    concepts, and nothing else; when it raises it has requested the URLs
    of the concepts up to and including the one whose answer holds the
    author on which the division raises, the answers before being
    without fault, and no URL of a later concept. *)
Theorem get_authors_requests_fail_fast (W : world) (concepts : list concept)
    (cc : option string) :
  (forall out,
     outcome (get_authors W concepts cc) = Ok out ->
     trace (get_authors W concepts cc)
     = map (fun c => Get (authors_url c cc)) concepts)
  /\ (forall e,
        outcome (get_authors W concepts cc) = Raise e ->
        exists l1 c l2,
          concepts = l1 ++ c :: l2
          /\ (forall c' a, In c' l1 ->
                In a (openalex_authors W (authors_url c' cc)) ->
                exists r, build_author a = Ok r)
          /\ (exists a, In a (openalex_authors W (authors_url c cc))
                        /\ build_author a = Raise e)
          /\ trace (get_authors W concepts cc)
             = map (fun c => Get (authors_url c cc)) (l1 ++ [c])).
Proof.
  split.
  - intros out O. destruct (get_authors_trace W concepts cc) as (n & Ht & Ho).
    now rewrite Ht, (Ho out O).
  - intros e O. unfold get_authors in O |- *.
    destruct (outcome (for_each concepts (concept_step W cc) []))
      as [r|e'] eqn:L.
    + rewrite (outcome_bind_ok _ _ _ L) in O. discriminate.
    + rewrite (outcome_bind_raise _ _ _ L) in O. injection O as ->.
      rewrite (trace_bind_raise _ _ _ L).
      destruct (concept_loop_raise W cc concepts [] e L)
        as (l1 & c & l2 & E & (r1 & R1) & Rc & Ht).
      exists l1, c, l2. split; [exact E|]. split; [|split].
      * intros c' a Ic Ia. apply map_result_Forall2 in R1.
        assert (I : In a (fetched W l1 cc))
          by (unfold fetched; apply in_flat_map; eauto).
        destruct (Forall2_In_l _ _ _ _ R1 I) as (b & _ & Hb). eauto.
      * apply map_result_raise in Rc. exact Rc.
      * exact Ht.
Qed.

Lemma get_authors_requests_fail_fast_witness :
  trace (get_authors Sample.w (map Sample.mk_concept ["C1"; "C2"]) None)
  = map (fun c => Get (authors_url c None))
      (map Sample.mk_concept ["C1"; "C2"])
  /\ exists l1 c l2,
       map Sample.mk_concept ["C1"; "Z"; "C2"] = l1 ++ c :: l2
       /\ trace (get_authors Sample.w
                   (map Sample.mk_concept ["C1"; "Z"; "C2"]) None)
          = map (fun c => Get (authors_url c None)) (l1 ++ [c]).
Proof.
  split.
  - eapply (proj1 (get_authors_requests_fail_fast Sample.w
                     (map Sample.mk_concept ["C1"; "C2"]) None)).
    vm_compute. reflexivity.
  - destruct (proj2 (get_authors_requests_fail_fast Sample.w
                       (map Sample.mk_concept ["C1"; "Z"; "C2"]) None)
                ZeroDivisionError eq_refl)
      as (l1 & c & l2 & E & _ & _ & T).
    exists l1, c, l2. split; assumption.
Defined.

(** X8.  On answers whose author records have the fields the function
    reads, when the division raises on a fetched author and on none of
    the authors fetched before it, [get_authors] raises the exception of
    that division: a [ZeroDivisionError] when the [works_count] of the
    author is 0, an [OverflowError] otherwise.  The faults of later
    authors do not matter, and no list is returned. *)
Theorem get_authors_first_fault (W : world) (concepts : list concept)
    (cc : option string) (l1 l2 : list author_json) (a : author_json)
    (e : exn) :
  fetched W concepts cc = l1 ++ a :: l2 ->
  Forall (fun x => exists q,
            int_true_div (a_cited_by_count x) (a_works_count x) = Ok q) l1 ->
  int_true_div (a_cited_by_count a) (a_works_count a) = Raise e ->
  outcome (get_authors W concepts cc) = Raise e
  /\ (a_works_count a = 0 -> e = ZeroDivisionError)
  /\ (a_works_count a <> 0 -> e = OverflowError).
Proof.
  intros El F Fa. split; [|split].
  - rewrite get_authors_outcome.
    assert (E : map_result build_author (fetched W concepts cc) = Raise e).
    { apply map_result_first_raise. exists l1, a, l2.
      split; [exact El|]. split.
      - eapply Forall_impl; [|exact F].
        intros x (q & Hq). eapply build_author_ok, Hq.
      - unfold build_author. now rewrite Fa. }
    now rewrite E.
  - intros Hz.
    pose proof (proj2 (int_true_div_zero (a_cited_by_count a) _) Hz).
    congruence.
  - intros Hz. apply int_true_div_raises in Fa as [[_ Hb]|[He _]];
      [contradiction | exact He].
Qed.

Lemma get_authors_first_fault_witness :
  outcome (get_authors Sample.w (map Sample.mk_concept ["C1"; "Z"; "H"]) None)
  = Raise ZeroDivisionError.
Proof.
  refine (proj1 (get_authors_first_fault Sample.w
                   (map Sample.mk_concept ["C1"; "Z"; "H"]) None
                   [Sample.bob; Sample.ada; Sample.ada] [Sample.eve]
                   Sample.dee ZeroDivisionError _ _ _)).
  - reflexivity.
  - repeat constructor; eexists; vm_compute; reflexivity.
  - reflexivity.
Defined.

(** X9.  The [citing_score] of every author [get_authors] returns is a
    finite float: a zero or a finite number, never a NaN and never an
    infinity. *)
Theorem get_authors_citing_score_finite (W : world)
    (concepts : list concept) (cc : option string) (out : list author)
    (r : author) :
  outcome (get_authors W concepts cc) = Ok out ->
  In r out ->
  is_finite (citing_score r) = true.
Proof.
  intros H Ir. destruct (get_authors_In W _ _ _ _ H Ir) as (a & _ & Ha).
  apply build_author_fields in Ha as (_ & _ & _ & Hd & _).
  eapply int_true_div_finite, Hd.
Qed.

Lemma get_authors_citing_score_finite_witness :
  exists out,
    outcome (get_authors Sample.w (map Sample.mk_concept ["C1"; "C2"]) None)
    = Ok out
    /\ Forall (fun r => is_finite (citing_score r) = true) out.
Proof.
  eexists. split; [vm_compute; reflexivity|].
  apply Forall_forall. intros r Ir.
  eapply (get_authors_citing_score_finite Sample.w
            (map Sample.mk_concept ["C1"; "C2"]) None).
  - vm_compute. reflexivity.
  - exact Ir.
Defined.

(** X10.  Every author record [get_authors] returns carries the
    [display_name], [cited_by_count], [works_count] and
    [2yr_mean_citedness] of one fetched author, unchanged. *)
Theorem get_authors_fields_verbatim (W : world) (concepts : list concept)
    (cc : option string) (out : list author) (r : author) :
  outcome (get_authors W concepts cc) = Ok out ->
  In r out ->
  exists c a,
    In c concepts
    /\ In a (openalex_authors W (authors_url c cc))
    /\ display_name r = a_display_name a
    /\ cited_by_count r = a_cited_by_count a
    /\ works_count r = a_works_count a
    /\ two_year_mean_citedness r = s_2yr_mean_citedness (a_summary_stats a).
Proof.
  intros H Ir. destruct (get_authors_In W _ _ _ _ H Ir) as (a & Ia & Ha).
  unfold fetched in Ia. apply in_flat_map in Ia as (c & Ic & Ia).
  apply build_author_fields in Ha as (E1 & E2 & E3 & _ & E5 & _).
  exists c, a. repeat split; assumption.
Qed.

Lemma get_authors_fields_verbatim_witness :
  exists out,
    outcome (get_authors Sample.w (map Sample.mk_concept ["C1"; "C2"]) None)
    = Ok out
    /\ Forall (fun r =>
                 exists c a,
                   In a (openalex_authors Sample.w (authors_url c None))
                   /\ display_name r = a_display_name a
                   /\ cited_by_count r = a_cited_by_count a) out.
Proof.
  eexists. split; [vm_compute; reflexivity|].
  apply Forall_forall. intros r Ir.
  destruct (get_authors_fields_verbatim Sample.w
              (map Sample.mk_concept ["C1"; "C2"]) None _ r eq_refl Ir)
    as (c & a & _ & Ia & E1 & E2 & _).
  exists c, a. repeat split; assumption.
Defined.

(** X11.  If no fetched author has the [2yr_mean_citedness] NaN, then
    wherever the list [get_authors] returns is cut, the authors kept
    rank at least as high as the authors cut off: none of these has a
    greater [2yr_mean_citedness], nor an equal one with more citations.
    So the five authors the driver prints are then five of the best
    ranked. *)
Theorem get_authors_prefix_ranks_first (W : world) (concepts : list concept)
    (cc : option string) (out : list author) (n : nat) (x y : author) :
  (forall a, In a (fetched W concepts cc) ->
             is_nan (s_2yr_mean_citedness (a_summary_stats a)) = false) ->
  outcome (get_authors W concepts cc) = Ok out ->
  In x (firstn n out) -> In y (skipn n out) ->
  float_le (two_year_mean_citedness y) (two_year_mean_citedness x) = true
  /\ (float_eq (two_year_mean_citedness x) (two_year_mean_citedness y) = true
      -> cited_by_count y <= cited_by_count x).
Proof.
  intros N H Ix Iy. apply get_authors_returns in H as (all & Hall & ->).
  pose proof (sorted_authors_ranked all (built_not_nan _ _ Hall N)) as S.
  apply Sorted_StronglySorted in S; [|intros a b c; apply ranked_trans].
  rewrite <- (firstn_skipn n (sorted sort_key tuple_lt all)) in S.
  exact (StronglySorted_app_rel ranked _ _ x y S Ix Iy).
Qed.

Lemma get_authors_prefix_ranks_first_witness :
  exists out,
    outcome (get_authors Sample.w (map Sample.mk_concept ["C1"; "C2"]) None)
    = Ok out
    /\ map display_name (firstn 3 out) = ["Cyd"; "Ada"; "Ada"]
    /\ map display_name (skipn 3 out) = ["Bob"]
    /\ Forall (fun x =>
                 Forall (fun y =>
                           float_le (two_year_mean_citedness y)
                             (two_year_mean_citedness x) = true)
                   (skipn 3 out))
         (firstn 3 out).
Proof.
  eexists. split; [vm_compute; reflexivity|].
  split; [reflexivity|]. split; [reflexivity|].
  assert (N : forall a,
             In a (fetched Sample.w (map Sample.mk_concept ["C1"; "C2"])
                     None) ->
             is_nan (s_2yr_mean_citedness (a_summary_stats a)) = false).
  { intros a Ia. vm_compute in Ia.
    destruct Ia as [<-|[<-|[<-|[<-|[]]]]]; reflexivity. }
  apply Forall_forall. intros x Ix. apply Forall_forall. intros y Iy.
  exact (proj1 (get_authors_prefix_ranks_first Sample.w
                  (map Sample.mk_concept ["C1"; "C2"]) None _ 3 x y
                  N eq_refl Ix Iy)).
Defined.

(* ================================================================= *)
(** * Further properties of the printing and of the driver *)
(* ================================================================= *)

Section DriverMore.

Variable W : world.

Lemma get_concepts_eq (topic : string) :
  get_concepts W topic
  = ([Get (concepts_url topic);
      Print [VStr "Number of concepts found: ";
             VInt (len (concepts_of_topic W topic))]],
     Ok (concepts_of_topic W topic)).
Proof.
  unfold get_concepts, concepts_of_topic, len. rewrite length_map.
  reflexivity.
Qed.

Lemma for_each_unit_ok {A : Type} (l : list A) (body : unit -> A -> M unit) :
  outcome (for_each l body tt) = Ok tt ->
  trace (for_each l body tt) = flat_map (fun x => trace (body tt x)) l
  /\ Forall (fun x => outcome (body tt x) = Ok tt) l.
Proof.
  induction l as [|x l IH]; cbn [for_each flat_map]; [now split|].
  destruct (outcome (body tt x)) as [[]|e] eqn:O.
  - rewrite (outcome_bind_ok _ _ _ O), (trace_bind_ok _ _ _ O).
    intros H. destruct (IH H) as [Ht Hf]. split; [now rewrite Ht|].
    now constructor.
  - rewrite (outcome_bind_raise _ _ _ O). discriminate.
Qed.

Lemma requests_flat_map {A : Type} (f : A -> list event) (l : list A) :
  requests (flat_map f l) = flat_map (fun x => requests (f x)) l.
Proof.
  induction l as [|x l IH]; [reflexivity|].
  cbn [flat_map]. now rewrite requests_app, IH.
Qed.

Lemma flat_map_ext_in {A B : Type} (f g : A -> list B) (l : list A) :
  (forall x, In x l -> f x = g x) -> flat_map f l = flat_map g l.
Proof.
  induction l as [|x l IH]; intros H; [reflexivity|].
  cbn [flat_map]. rewrite (H x (or_introl eq_refl)), IH; [reflexivity|].
  intros y Iy. apply H. now right.
Qed.

Lemma country_step_ok_requests (concepts : list concept)
    (cc : option string) :
  outcome (country_step W concepts cc) = Ok tt ->
  requests (trace (country_step W concepts cc))
  = map (fun c => authors_url c cc) (firstn 5 concepts).
Proof.
  intros O. destruct (country_step_requests W concepts cc) as (n & E & Ho).
  rewrite E. f_equal.
  destruct (outcome (get_authors W (firstn 5 concepts) cc))
    as [authors|e] eqn:G.
  - now apply (Ho authors).
  - unfold country_step, slice_to in O.
    rewrite (outcome_bind_raise _ _ _ G) in O. discriminate.
Qed.

Lemma topic_step_driver_ok_requests (locations : list string)
    (topic : string) :
  outcome (topic_step_driver W locations topic) = Ok tt ->
  requests (trace (topic_step_driver W locations topic))
  = concepts_url topic
    :: flat_map (fun cc => map (fun c => authors_url c cc)
                             (firstn 5 (concepts_of_topic W topic)))
         (convert_location_to_alpha2 W locations).
Proof.
  unfold topic_step_driver. rewrite get_concepts_eq.
  rewrite (outcome_bind_ok _ _ (concepts_of_topic W topic)) by reflexivity.
  rewrite (trace_bind_ok _ _ (concepts_of_topic W topic)) by reflexivity.
  rewrite (outcome_bind_ok _ _ tt) by reflexivity.
  rewrite (trace_bind_ok _ _ tt) by reflexivity.
  intros O. destruct (for_each_unit_ok _ _ O) as [Ht Hf]. rewrite Ht.
  cbn [trace fst print emit]. rewrite !requests_app, requests_flat_map.
  cbn [requests flat_map app]. f_equal.
  apply flat_map_ext_in. intros cc Icc.
  rewrite Forall_forall in Hf. now apply country_step_ok_requests, Hf.
Qed.

End DriverMore.

(** X13.  [print_authors] makes no request.  Without a country code it
    prints five lines per author, in the order of the list, and nothing
    for an empty list; with a country code of the table it prints the
    line of the country first; with a country code that is not in the
    table it raises [AttributeError] before anything is printed. *)
Theorem print_authors_output (W : world) (authors : list author) :
  print_authors W authors None = (flat_map author_lines authors, Ok tt)
  /\ (forall cc c,
        countries_get_alpha_2 W cc = Some c ->
        print_authors W authors (Some cc)
        = (Print [VStr (nl ++ "In " ++ name c ++ ":")]
             :: flat_map author_lines authors,
           Ok tt))
  /\ (forall cc,
        countries_get_alpha_2 W cc = None ->
        print_authors W authors (Some cc) = ([], Raise AttributeError))
  /\ List.length (flat_map author_lines authors)
     = (5 * List.length authors)%nat
  /\ (forall cc, requests (trace (print_authors W authors cc)) = []).
Proof.
  split; [apply print_authors_eq|]. split; [|split; [|split]].
  - intros cc c H. rewrite print_authors_eq. unfold header_lines.
    now rewrite H.
  - intros cc H. rewrite print_authors_eq. now rewrite H.
  - apply flat_map_author_lines_length.
  - intros cc. rewrite print_authors_eq. unfold header_lines.
    destruct cc as [c|]; [destruct (countries_get_alpha_2 W c)|];
      cbn [trace fst]; rewrite ?requests_app;
      rewrite ?(requests_prints _ (filter_is_get_lines authors));
      reflexivity.
Qed.

Lemma print_authors_output_witness :
  print_authors Sample.w [] (Some "DE")
  = ([Print [VStr (nl ++ "In Germany:")]], Ok tt)
  /\ print_authors Sample.w [] (Some "XX") = ([], Raise AttributeError).
Proof.
  split.
  - apply (proj1 (proj2 (print_authors_output Sample.w []))
             "DE" {| name := "Germany"; alpha_2 := "DE" |}).
    reflexivity.
  - apply (proj1 (proj2 (proj2 (print_authors_output Sample.w []))) "XX").
    reflexivity.
Defined.

(** X14.  When the API answers no author for any of the first five
    concepts, an iteration of the driver still ends without an
    exception: it makes its requests and prints the line of the country,
    if there is a country code, and the blank lines, with no author in
    between. *)
Theorem country_step_no_authors (W : world) (concepts : list concept)
    (cc : option string) :
  (forall c, In c (firstn 5 concepts) ->
             openalex_authors W (authors_url c cc) = []) ->
  (forall c, cc = Some c -> countries_get_alpha_2 W c <> None) ->
  country_step W concepts cc
  = (map (fun c => Get (authors_url c cc)) (firstn 5 concepts)
       ++ header_lines W cc ++ [Print [VStr (nl ++ nl)]],
     Ok tt).
Proof.
  intros H Hc.
  assert (F : fetched W (firstn 5 concepts) cc = []).
  { unfold fetched. induction (firstn 5 concepts) as [|c l IH];
      [reflexivity|].
    cbn [flat_map]. rewrite (H c (or_introl eq_refl)). cbn [app].
    apply IH. intros c' I. apply H. now right. }
  assert (G : outcome (get_authors W (firstn 5 concepts) cc) = Ok []).
  { rewrite get_authors_outcome, F. reflexivity. }
  pose proof (country_step_trace W concepts cc [] G Hc) as T.
  assert (O : outcome (country_step W concepts cc) = Ok tt).
  { unfold country_step, slice_to. rewrite (outcome_bind_ok _ _ _ G).
    rewrite print_authors_eq. cbn [firstn flat_map].
    destruct cc as [c|]; [|reflexivity].
    specialize (Hc c eq_refl).
    now destruct (countries_get_alpha_2 W c). }
  unfold trace, outcome in T, O.
  destruct (country_step W concepts cc) as [t o]. cbn [fst snd] in T, O.
  now subst.
Qed.

Lemma country_step_no_authors_witness :
  country_step Sample.w (map Sample.mk_concept ["C3"; "C4"]) (Some "IT")
  = (map (fun c => Get (authors_url c (Some "IT")))
       (map Sample.mk_concept ["C3"; "C4"])
       ++ [Print [VStr (nl ++ "In Italy:")];
           Print [VStr (nl ++ nl)]],
     Ok tt).
Proof.
  apply (country_step_no_authors Sample.w
           (map Sample.mk_concept ["C3"; "C4"]) (Some "IT")).
  - intros c [<-|[<-|[]]]; reflexivity.
  - intros c E. injection E as <-. discriminate.
Defined.

(** X15.  When no location name resolves to a country, the list of
    locations being empty or not, a topic is still processed once,
    without a country filter: after the concept search and the two
    printed lines comes one iteration for the country code [None], and
    the topic ends as that iteration ends. *)
Theorem topic_step_driver_no_location (W : world) (locations : list string)
    (topic : string) :
  (forall n, In n locations -> countries_get_name W n = None) ->
  trace (topic_step_driver W locations topic)
  = [Get (concepts_url topic);
     Print [VStr "Number of concepts found: ";
            VInt (len (concepts_of_topic W topic))];
     Print [VStr ("Results for the topic: " ++ dquote ++ topic ++ dquote)]]
      ++ trace (country_step W (concepts_of_topic W topic) None)
  /\ outcome (topic_step_driver W locations topic)
     = outcome (country_step W (concepts_of_topic W topic) None).
Proof.
  intros H. unfold topic_step_driver.
  rewrite convert_location_to_alpha2_eq, (filtered_codes_of_none W _ H).
  rewrite get_concepts_eq. cbn [for_each].
  rewrite (outcome_bind_ok _ _ (concepts_of_topic W topic)) by reflexivity.
  rewrite (trace_bind_ok _ _ (concepts_of_topic W topic)) by reflexivity.
  rewrite (outcome_bind_ok _ _ tt) by reflexivity.
  rewrite (trace_bind_ok _ _ tt) by reflexivity.
  destruct (country_step W (concepts_of_topic W topic) None)
    as [t [[]|e]]; unfold bind, ret; cbn [trace outcome fst snd print emit];
    rewrite ?app_nil_r; split; reflexivity.
Qed.

Lemma topic_step_driver_no_location_witness :
  requests (trace (topic_step_driver Sample.w ["Tomato"; "Atlantis"]
                     "Botanic"))
  = concepts_url "Botanic"
    :: map (fun c => authors_url c None)
         (map Sample.mk_concept ["C1"; "C2"; "C3"; "C4"; "C5"]).
Proof.
  assert (H : forall n, In n ["Tomato"; "Atlantis"] ->
                        countries_get_name Sample.w n = None)
    by (intros n [<-|[<-|[]]]; reflexivity).
  rewrite (proj1 (topic_step_driver_no_location Sample.w
                    ["Tomato"; "Atlantis"] "Botanic" H)).
  vm_compute. reflexivity.
Defined.

(** X16.  A run that ends without an exception has requested, for each
    topic in order, the concept search of the topic and then, for each
    country code in order, the authors of the first five concepts of the
    topic, and nothing else; no answer is reused, a topic or a concept
    met twice is requested twice. *)
Theorem main_requests (W : world) :
  outcome (main W) = Ok tt ->
  requests (trace (main W))
  = run_urls W (fst (extract_information W query))
      (convert_location_to_alpha2 W (snd (extract_information W query))).
Proof.
  unfold main. destruct (extract_information W query) as [topics locations].
  cbn [fst snd].
  rewrite (outcome_bind_ok _ _ tt) by reflexivity.
  rewrite (trace_bind_ok _ _ tt) by reflexivity.
  rewrite (outcome_bind_ok _ _ tt) by reflexivity.
  rewrite (trace_bind_ok _ _ tt) by reflexivity.
  cbn [trace fst print emit]. rewrite !requests_app.
  cbn [requests flat_map app].
  destruct topics as [|t l]; [reflexivity|].
  replace (len (t :: l) =? 0) with false
    by (symmetry; apply Z.eqb_neq; unfold len; cbn [List.length]; lia).
  cbn [negb]. intros O. destruct (for_each_unit_ok _ _ O) as [Ht Hf].
  rewrite Ht, requests_flat_map. unfold run_urls.
  apply flat_map_ext_in. intros topic It.
  rewrite Forall_forall in Hf.
  now apply topic_step_driver_ok_requests, Hf.
Qed.

Lemma main_requests_witness :
  List.length (requests (trace (main Sample.w))) = 32%nat.
Proof.
  rewrite (main_requests Sample.w).
  - vm_compute. reflexivity.
  - vm_compute. reflexivity.
Defined.
